(** * Turn sequencing and move acceptance of the Mr. X chase board

    A shallow embedding of [GameBoard] (the React component that follows the
    generated Supabase row types in [src/integrations/supabase/types.ts]):
    the row types, the turn logic of the render path, and the asynchronous
    handlers [fetchGameData], [handleMove] and [startGame].

    Numbers that the database stores as integers are [Z]; the JavaScript
    remainder [%] is [Z.rem] (the sign follows the dividend) and is [NaN] when
    the divisor is [0].  Row identifiers and time stamps are strings. *)

From Stdlib Require Import ZArith List String Ascii Bool Lia Sorted.
Import ListNotations.
Open Scope Z_scope.

(** ** Row types ([Database.public]) *)

Inductive game_status := waiting | in_progress | finished.
Inductive player_role := mr_x | detective.
Inductive transport_type := taxi | bus | underground | black.

Definition game_status_eqb (a b : game_status) : bool :=
  match a, b with
  | waiting, waiting | in_progress, in_progress | finished, finished => true
  | _, _ => false
  end.

Definition player_role_eqb (a b : player_role) : bool :=
  match a, b with
  | mr_x, mr_x | detective, detective => true
  | _, _ => false
  end.

Module Game.
Record Row := {
  created_at : string;
  current_turn : Z;
  id : string;
  mr_x_player : option string;
  name : string;
  status : game_status;
  updated_at : string;
  winner : option string
}.

Definition set_current_turn (n : Z) (g : Row) : Row :=
  {| created_at := created_at g; current_turn := n; id := id g;
     mr_x_player := mr_x_player g; name := name g; status := status g;
     updated_at := updated_at g; winner := winner g |}.

Definition set_status (st : game_status) (g : Row) : Row :=
  {| created_at := created_at g; current_turn := current_turn g; id := id g;
     mr_x_player := mr_x_player g; name := name g; status := st;
     updated_at := updated_at g; winner := winner g |}.
End Game.

Module Player.
Record Row := {
  black_tickets : Z;
  bus_tickets : Z;
  created_at : string;
  current_position : Z;
  game_id : string;
  id : string;
  is_active : bool;
  role : player_role;
  taxi_tickets : Z;
  underground_tickets : Z;
  user_id : string
}.
End Player.

Module Move.
(** The columns [handleMove] supplies on insert; [id] and [created_at] are
    filled in by the table's defaults and are read nowhere in the component. *)
Record Row := {
  game_id : string;
  player_id : string;
  from_position : Z;
  to_position : Z;
  transport : transport_type;
  turn_number : Z;
  revealed : bool
}.
End Move.

(** [currentPlayer[`${transport}_tickets`]] *)
Definition ticketCount (p : Player.Row) (t : transport_type) : Z :=
  match t with
  | taxi => Player.taxi_tickets p
  | bus => Player.bus_tickets p
  | underground => Player.underground_tickets p
  | black => Player.black_tickets p
  end.

(** ** Turn logic *)

(** [current_turn % sortedPlayers.length]; [None] stands for [NaN]. *)
Definition currentTurnIndex (current_turn : Z) (length : nat) : option Z :=
  if Z.of_nat length =? 0 then None
  else Some (Z.rem current_turn (Z.of_nat length)).

(** [arr[i]]: [undefined] (here [None]) outside [0 .. length-1] and at [NaN]. *)
Definition index {A : Type} (arr : list A) (i : option Z) : option A :=
  match i with
  | None => None
  | Some i => if i <? 0 then None else nth_error arr (Z.to_nat i)
  end.

(** [sortedPlayers[currentTurnIndex]], as both the render path and
    [handleMove] compute it from their roster and turn counter. *)
Definition activePlayer (sortedPlayers : list Player.Row) (current_turn : Z)
  : option Player.Row :=
  index sortedPlayers (currentTurnIndex current_turn (List.length sortedPlayers)).

(** [t % 3 === 0 || t === 1], the expression behind [isMrXRevealTurn] in the
    render path and behind the [revealed] column in [handleMove]. *)
Definition isRevealTurn (turn : Z) : bool :=
  (Z.rem turn 3 =? 0) || (turn =? 1).

Definition isMrXRevealTurn (game : Game.Row) : bool :=
  isRevealTurn (Game.current_turn game).

(** ** The remote store

    The rows of the one game the component is mounted on ([gameId]): every
    query of the component filters by that id.  [players] and [moves] are
    kept in the order [.order('created_at', { ascending: true })] returns
    them; an insert appends. *)

Record Store := {
  st_game : Game.Row;
  st_players : list Player.Row;
  st_moves : list Move.Row
}.

(** The patch of [handleMove]:
    [{ current_position: toPosition, [ticketField]: currentTickets - 1 }]. *)
Record PlayerUpdate := {
  upd_current_position : Z;
  upd_ticketField : transport_type;
  upd_tickets : Z
}.

(** The two patches sent to the [games] table. *)
Inductive GameUpdate :=
| SetCurrentTurn (n : Z)
| SetStatus (st : game_status).

(** The error object of a failed request. *)
Inductive StoreError := PostgrestError.

(** A request of the Supabase client, indexed by what awaiting it yields:
    [data] of a select ([None] for [null]), [error] of a write. *)
Inductive Request : Type -> Type :=
| SelectGame : Request (option Game.Row)
| SelectPlayers : Request (option (list Player.Row))
| SelectMoves : Request (option (list Move.Row))
| InsertMove (m : Move.Row) : Request (option StoreError)
| UpdatePlayer (id : string) (patch : PlayerUpdate) : Request (option StoreError)
| UpdateGame (patch : GameUpdate) : Request (option StoreError).

Definition applyPlayerUpdate (patch : PlayerUpdate) (p : Player.Row) : Player.Row :=
  let n := upd_tickets patch in
  let f := upd_ticketField patch in
  {| Player.black_tickets :=
       match f with black => n | _ => Player.black_tickets p end;
     Player.bus_tickets :=
       match f with bus => n | _ => Player.bus_tickets p end;
     Player.created_at := Player.created_at p;
     Player.current_position := upd_current_position patch;
     Player.game_id := Player.game_id p;
     Player.id := Player.id p;
     Player.is_active := Player.is_active p;
     Player.role := Player.role p;
     Player.taxi_tickets :=
       match f with taxi => n | _ => Player.taxi_tickets p end;
     Player.underground_tickets :=
       match f with underground => n | _ => Player.underground_tickets p end;
     Player.user_id := Player.user_id p |}.

Definition applyGameUpdate (patch : GameUpdate) (g : Game.Row) : Game.Row :=
  match patch with
  | SetCurrentTurn n => Game.set_current_turn n g
  | SetStatus st => Game.set_status st g
  end.

(** [.update(patch).eq('id', id)] on [players]: every row with that id. *)
Definition updatePlayers (id : string) (patch : PlayerUpdate)
  (rows : list Player.Row) : list Player.Row :=
  map (fun p => if String.eqb (Player.id p) id then applyPlayerUpdate patch p else p)
      rows.

(** The three writes, as the store applies them. *)
Definition insertMove (m : Move.Row) (s : Store) : Store :=
  {| st_game := st_game s; st_players := st_players s;
     st_moves := st_moves s ++ [m] |}.

Definition updatePlayer (id : string) (patch : PlayerUpdate) (s : Store) : Store :=
  {| st_game := st_game s;
     st_players := updatePlayers id patch (st_players s);
     st_moves := st_moves s |}.

Definition updateGame (patch : GameUpdate) (s : Store) : Store :=
  {| st_game := applyGameUpdate patch (st_game s);
     st_players := st_players s; st_moves := st_moves s |}.

(** The store answers one request.  [fails] says that this request fails:
    a failed select has no data, a failed write reports an error and changes
    nothing.  The client never throws on a failed request. *)
Definition serve {R : Type} (s : Store) (fails : bool) (q : Request R) : Store * R :=
  match q in Request R return Store * R with
  | SelectGame => (s, if fails then None else Some (st_game s))
  | SelectPlayers => (s, if fails then None else Some (st_players s))
  | SelectMoves => (s, if fails then None else Some (st_moves s))
  | InsertMove m =>
      if fails then (s, Some PostgrestError) else (insertMove m s, None)
  | UpdatePlayer id patch =>
      if fails then (s, Some PostgrestError) else (updatePlayer id patch s, None)
  | UpdateGame patch =>
      if fails then (s, Some PostgrestError) else (updateGame patch s, None)
  end.

(** What an observer of the connection sees of a request and its answer. *)
Inductive Event :=
| EvSelectGame (data : option Game.Row)
| EvSelectPlayers (data : option (list Player.Row))
| EvSelectMoves (data : option (list Move.Row))
| EvInsertMove (m : Move.Row) (error : option StoreError)
| EvUpdatePlayer (id : string) (patch : PlayerUpdate) (error : option StoreError)
| EvUpdateGame (patch : GameUpdate) (error : option StoreError).

Definition event {R : Type} (q : Request R) : R -> Event :=
  match q in Request R return R -> Event with
  | SelectGame => EvSelectGame
  | SelectPlayers => EvSelectPlayers
  | SelectMoves => EvSelectMoves
  | InsertMove m => EvInsertMove m
  | UpdatePlayer id patch => EvUpdatePlayer id patch
  | UpdateGame patch => EvUpdateGame patch
  end.

(** ** Asynchronous handlers

    An [async] function is a tree of awaited requests: each [await] hands
    a request to the store and resumes with its answer. *)

Inductive Proc (A : Type) : Type :=
| Ret (a : A)
| Await {R : Type} (q : Request R) (k : R -> Proc A).

Arguments Ret {A} a.
Arguments Await {A R} q k.

Notation "x <- 'await' q ;; p" := (Await q (fun x => p))
  (at level 61, q at next level, right associativity).

(** One request of a handler against the store. *)
Definition step {A : Type} (p : Proc A) (s : Store) (fails : bool)
  : Store * Proc A :=
  match p with
  | Ret a => (s, Ret a)
  | Await q k => let (s', r) := serve s fails q in (s', k r)
  end.

(** A handler run to completion with no other client in between; its n-th
    request (counted from 0) fails when [faults n] holds.  Returns the store,
    the handler's result and the requests it made. *)
Fixpoint run {A : Type} (p : Proc A) (s : Store) (faults : nat -> bool)
  : Store * A * list Event :=
  match p with
  | Ret a => (s, a, [])
  | Await q k =>
      let (s', r) := serve s (faults 0%nat) q in
      let '(s'', a, tr) := run (k r) s' (fun n => faults (S n)) in
      (s'', a, event q r :: tr)
  end.

Definition finalStore {A : Type} (r : Store * A * list Event) : Store := fst (fst r).
Definition result {A : Type} (r : Store * A * list Event) : A := snd (fst r).
Definition requests {A : Type} (r : Store * A * list Event) : list Event := snd r.

Definition noFaults : nat -> bool := fun _ => false.

(** Two clients on the same store; a schedule names, request by request,
    whose handler goes next and whether that request fails. *)
Inductive Tab := TabA | TabB.

Fixpoint interleave {A : Type} (sched : list (Tab * bool)) (s : Store)
  (pa pb : Proc A) : Store * Proc A * Proc A :=
  match sched with
  | [] => (s, pa, pb)
  | (TabA, fails) :: sched' =>
      let (s', pa') := step pa s fails in interleave sched' s' pa' pb
  | (TabB, fails) :: sched' =>
      let (s', pb') := step pb s fails in interleave sched' s' pa pb'
  end.

(** A race of two runs of [handleMove] (two selects, three writes and the
    three selects of the refresh each): both make their two selects before
    either makes its first write; nothing fails. *)
Definition raceSchedule : list (Tab * bool) :=
  [ (TabA, false); (TabA, false); (TabB, false); (TabB, false);
    (TabA, false); (TabA, false); (TabA, false);
    (TabB, false); (TabB, false); (TabB, false);
    (TabA, false); (TabA, false); (TabA, false);
    (TabB, false); (TabB, false); (TabB, false) ].

(** ** The component's state *)

(** What the [catch] of [handleMove] can receive: the error of the [games]
    update, or the [TypeError] of reading [.id] of [undefined]. *)
Inductive Thrown := ThrownUpdateError (e : StoreError) | ThrownTypeError.

Inductive Toast :=
| CouldNotLoadGame          (* "Could not load game state." *)
| CouldNotLoadPlayers       (* "Could not load players." *)
| NotYourTurn               (* "It's not your turn!" *)
| NoTicketsLeft (t : transport_type)  (* `No ${t} tickets left!` *)
| MoveCompleted             (* "Move completed! Next player's turn." *)
| FailedToMakeMove (e : Thrown)  (* error.message || "Failed to make move" *)
| NeedTwoPlayers            (* "Need at least 2 players to start!" *)
| GameStarted.              (* "Game started!" *)

(** The props [gameId], [userId], the [useState] cells, and the toasts shown
    so far (oldest first). *)
Record Client := {
  gameId : string;
  userId : string;
  game : option Game.Row;
  players : list Player.Row;
  currentPlayer : option Player.Row;
  moves : list Move.Row;
  selectedTransport : option transport_type;
  availableMoves : list Z;
  toasts : list Toast
}.

Definition setGame (g : option Game.Row) (c : Client) : Client :=
  {| gameId := gameId c; userId := userId c; game := g; players := players c;
     currentPlayer := currentPlayer c; moves := moves c;
     selectedTransport := selectedTransport c;
     availableMoves := availableMoves c; toasts := toasts c |}.

Definition setPlayers (ps : list Player.Row) (c : Client) : Client :=
  {| gameId := gameId c; userId := userId c; game := game c; players := ps;
     currentPlayer := currentPlayer c; moves := moves c;
     selectedTransport := selectedTransport c;
     availableMoves := availableMoves c; toasts := toasts c |}.

Definition setCurrentPlayer (p : option Player.Row) (c : Client) : Client :=
  {| gameId := gameId c; userId := userId c; game := game c;
     players := players c; currentPlayer := p; moves := moves c;
     selectedTransport := selectedTransport c;
     availableMoves := availableMoves c; toasts := toasts c |}.

Definition setMoves (ms : list Move.Row) (c : Client) : Client :=
  {| gameId := gameId c; userId := userId c; game := game c;
     players := players c; currentPlayer := currentPlayer c; moves := ms;
     selectedTransport := selectedTransport c;
     availableMoves := availableMoves c; toasts := toasts c |}.

Definition setSelectedTransport (t : option transport_type) (c : Client) : Client :=
  {| gameId := gameId c; userId := userId c; game := game c;
     players := players c; currentPlayer := currentPlayer c; moves := moves c;
     selectedTransport := t;
     availableMoves := availableMoves c; toasts := toasts c |}.

Definition setAvailableMoves (l : list Z) (c : Client) : Client :=
  {| gameId := gameId c; userId := userId c; game := game c;
     players := players c; currentPlayer := currentPlayer c; moves := moves c;
     selectedTransport := selectedTransport c;
     availableMoves := l; toasts := toasts c |}.

Definition toast (t : Toast) (c : Client) : Client :=
  {| gameId := gameId c; userId := userId c; game := game c;
     players := players c; currentPlayer := currentPlayer c; moves := moves c;
     selectedTransport := selectedTransport c;
     availableMoves := availableMoves c; toasts := toasts c ++ [t] |}.

(** ** [fetchGameData]

    The three selects of the [Promise.all], then the setters; a select
    without data leaves its cells as they are. *)
Definition fetchGameData (c : Client) : Proc Client :=
  gameRes <- await SelectGame ;;
  playersRes <- await SelectPlayers ;;
  movesRes <- await SelectMoves ;;
  let c1 := match gameRes with Some g => setGame (Some g) c | None => c end in
  let c2 :=
    match playersRes with
    | Some ps =>
        setCurrentPlayer
          (find (fun p => String.eqb (Player.user_id p) (userId c)) ps)
          (setPlayers ps c1)
    | None => c1
    end in
  Ret (match movesRes with Some ms => setMoves ms c2 | None => c2 end).

(** ** [handleTransportSelect]

    [getAllAvailableMoves] belongs to the map module ([@/lib/gameMap]); the
    handler only reads the three lists of its answer. *)
Module AvailableMoves.
Record t := { taxi : list Z; bus : list Z; underground : list Z }.
End AvailableMoves.

Definition handleTransportSelect (getAllAvailableMoves : Z -> AvailableMoves.t)
  (c : Client) (transport : transport_type) : Client :=
  match currentPlayer c with
  | None => c
  | Some currentPlayer =>
      let allMoves := getAllAvailableMoves (Player.current_position currentPlayer) in
      let available :=
        match transport with
        | taxi => AvailableMoves.taxi allMoves
        | bus => AvailableMoves.bus allMoves
        | underground => AvailableMoves.underground allMoves
        | black =>
            AvailableMoves.taxi allMoves ++ AvailableMoves.bus allMoves
            ++ AvailableMoves.underground allMoves
        end in
      setAvailableMoves available (setSelectedTransport (Some transport) c)
  end.

(** [[...latestPlayers]]: a copy, in the order of the answer. *)
Definition spread {A : Type} (arr : list A) : list A := arr.

(** The row [handleMove] inserts into [moves]. *)
Definition newMove (c : Client) (currentPlayer : Player.Row) (toPosition : Z)
  (tempTransport : transport_type) (latestGame : Game.Row) : Move.Row :=
  {| Move.game_id := gameId c;
     Move.player_id := Player.id currentPlayer;
     Move.from_position := Player.current_position currentPlayer;
     Move.to_position := toPosition;
     Move.transport := tempTransport;
     Move.turn_number := Game.current_turn latestGame;
     Move.revealed :=
       player_role_eqb (Player.role currentPlayer) mr_x
       && isRevealTurn (Game.current_turn latestGame) |}.

(** [updates], the patch [handleMove] sends to [players]. *)
Definition updates (toPosition : Z) (tempTransport : transport_type)
  (currentTickets : Z) : PlayerUpdate :=
  {| upd_current_position := toPosition;
     upd_ticketField := tempTransport;
     upd_tickets := currentTickets - 1 |}.

(** ** [handleMove]

    [currentPlayer], [selectedTransport] and [game] are the values of the
    render the handler was created in (the argument [c]); the setters act on
    the state that is threaded through. *)
Definition handleMove (c : Client) (toPosition : Z) : Proc Client :=
  match currentPlayer c, selectedTransport c, game c with
  | Some currentPlayer, Some tempTransport, Some _ =>
      let c := setAvailableMoves [] (setSelectedTransport None c) in
      latestGame <- await SelectGame ;;
      match latestGame with
      | None =>
          Ret (setSelectedTransport (Some tempTransport) (toast CouldNotLoadGame c))
      | Some latestGame =>
          latestPlayers <- await SelectPlayers ;;
          match latestPlayers with
          | None =>
              Ret (setSelectedTransport (Some tempTransport)
                     (toast CouldNotLoadPlayers c))
          | Some latestPlayers =>
              let sortedPlayers := spread latestPlayers in
              match activePlayer sortedPlayers (Game.current_turn latestGame) with
              | None =>
                  (* [activePlayer.id] throws; the [catch] restores the selection *)
                  Ret (setSelectedTransport (Some tempTransport)
                         (toast (FailedToMakeMove ThrownTypeError) c))
              | Some activePlayer =>
                  if negb (String.eqb (Player.id currentPlayer) (Player.id activePlayer))
                  then Ret (toast NotYourTurn c)
                  else
                    let currentTickets := ticketCount currentPlayer tempTransport in
                    if currentTickets <=? 0
                    then Ret (setSelectedTransport (Some tempTransport)
                                (toast (NoTicketsLeft tempTransport) c))
                    else
                      _ <- await InsertMove
                             (newMove c currentPlayer toPosition tempTransport latestGame) ;;
                      _ <- await UpdatePlayer (Player.id currentPlayer)
                             (updates toPosition tempTransport currentTickets) ;;
                      updateError <- await UpdateGame
                             (SetCurrentTurn (Game.current_turn latestGame + 1)) ;;
                      match updateError with
                      | Some e =>
                          Ret (setSelectedTransport (Some tempTransport)
                                 (toast (FailedToMakeMove (ThrownUpdateError e)) c))
                      | None => fetchGameData (toast MoveCompleted c)
                      end
              end
          end
      end
  | _, _, _ => Ret c
  end.

(** ** [startGame] and the button that calls it *)
Definition startGame (c : Client) : Proc Client :=
  if (Z.of_nat (List.length (players c)) <? 2)
  then Ret (toast NeedTwoPlayers c)
  else
    _ <- await UpdateGame (SetStatus in_progress) ;;
    Ret (toast GameStarted c).

(** [game.status === 'waiting' && game.mr_x_player === userId], below the
    [if (!game || !currentPlayer)] that renders "Loading..." instead. *)
Definition startGameButton (c : Client) : bool :=
  match game c, currentPlayer c with
  | Some g, Some _ =>
      game_status_eqb (Game.status g) waiting
      && match Game.mr_x_player g with
         | Some u => String.eqb u (userId c)
         | None => false
         end
  | _, _ => false
  end.

(** The start-game action of the user: [startGame] behind its button; with
    no button rendered there is nothing to click. *)
Definition clickStartGame (c : Client) : Proc Client :=
  if startGameButton c then startGame c else Ret c.

(** ** The render path *)

(** [Array.prototype.sort(compare)]: a stable sort; [a] stays in front of a
    later [b] unless [compare(a, b) > 0].  For a comparator that is a total
    preorder every stable sort returns this array. *)
Fixpoint insertSorted {A : Type} (compare : A -> A -> Z) (a : A) (arr : list A)
  : list A :=
  match arr with
  | [] => [a]
  | b :: rest =>
      if compare a b <=? 0 then a :: b :: rest
      else b :: insertSorted compare a rest
  end.

Definition sort {A : Type} (compare : A -> A -> Z) (arr : list A) : list A :=
  fold_right (insertSorted compare) [] arr.

(** [a] may stand in front of [b]: [compare(a, b) <= 0]. *)
Definition inOrder {A : Type} (compare : A -> A -> Z) (a b : A) : Prop :=
  compare a b <= 0.

(** The answer of [.order('created_at', { ascending: true })] for the rows
    of a table, the store comparing time stamps with [pgCompare]. *)
Definition orderByCreatedAt (pgCompare : string -> string -> Z)
  (rows : list Player.Row) : list Player.Row :=
  sort (fun a b => pgCompare (Player.created_at a) (Player.created_at b)) rows.

Section RenderPath.

(** [String.prototype.localeCompare], the collation of the browser. *)
Variable localeCompare : string -> string -> Z.

(** [[...players].sort((a, b) => a.created_at.localeCompare(b.created_at))] *)
Definition sortedPlayers (players : list Player.Row) : list Player.Row :=
  sort (fun a b => localeCompare (Player.created_at a) (Player.created_at b))
       (spread players).

(** [activePlayer] of the render path. *)
Definition renderActivePlayer (game : Game.Row) (players : list Player.Row)
  : option Player.Row :=
  activePlayer (sortedPlayers players) (Game.current_turn game).

(** [game.status === 'in_progress' && currentPlayer.id === activePlayer.id];
    [None] when reading [activePlayer.id] throws. *)
Definition isMyTurn (game : Game.Row) (players : list Player.Row)
  (currentPlayer : Player.Row) : option bool :=
  if game_status_eqb (Game.status game) in_progress
  then match renderActivePlayer game players with
       | Some activePlayer =>
           Some (String.eqb (Player.id currentPlayer) (Player.id activePlayer))
       | None => None
       end
  else Some false.

(** [showMrX] handed to the map. *)
Definition showMrX (game : Game.Row) (currentPlayer : Player.Row) : bool :=
  player_role_eqb (Player.role currentPlayer) mr_x || isMrXRevealTurn game.

End RenderPath.

(** ** Observing a run of [handleMove] *)

(** The [error] a write reports. *)
Definition writeError (fails : bool) : option StoreError :=
  if fails then Some PostgrestError else None.

Definition isWrite (ev : Event) : bool :=
  match ev with
  | EvInsertMove _ _ | EvUpdatePlayer _ _ _ | EvUpdateGame _ _ => true
  | _ => false
  end.

(** The write requests among the requests of a run, in order. *)
Definition writes (tr : list Event) : list Event := filter isWrite tr.

(** The toasts with which [handleMove] turns a move down before writing. *)
Definition isRejection (t : Toast) : bool :=
  match t with
  | CouldNotLoadGame | CouldNotLoadPlayers | NotYourTurn | NoTicketsLeft _
  | FailedToMakeMove ThrownTypeError => true
  | _ => false
  end.

(** [handleMove] gets as far as its ticket check: the handler has a player, a
    transport and a game, both selects answer, and the player it holds has the
    id of the active player of the answer. *)
Definition ReachesTicketCheck (c : Client) (s : Store) (faults : nat -> bool)
  (cp : Player.Row) (tt : transport_type) : Prop :=
  currentPlayer c = Some cp
  /\ selectedTransport c = Some tt
  /\ game c <> None
  /\ faults 0%nat = false
  /\ faults 1%nat = false
  /\ exists ap,
       activePlayer (st_players s) (Game.current_turn (st_game s)) = Some ap
       /\ Player.id cp = Player.id ap.

(** ... and passes it: the count it reads is positive. *)
Definition Validated (c : Client) (s : Store) (faults : nat -> bool)
  (cp : Player.Row) (tt : transport_type) : Prop :=
  ReachesTicketCheck c s faults cp tt /\ 0 < ticketCount cp tt.

(** The store after the three writes of a validated move, each one applied
    unless it failed. *)
Definition committed (c : Client) (s : Store) (faults : nat -> bool)
  (cp : Player.Row) (tt : transport_type) (toPosition : Z) : Store :=
  let s1 :=
    if faults 2%nat then s
    else insertMove (newMove c cp toPosition tt (st_game s)) s in
  let s2 :=
    if faults 3%nat then s1
    else updatePlayer (Player.id cp)
           (updates toPosition tt (ticketCount cp tt)) s1 in
  if faults 4%nat then s2
  else updateGame (SetCurrentTurn (Game.current_turn (st_game s) + 1)) s2.

(** The requests of [fetchGameData] against [s], failing as [f0 f1 f2] say. *)
Definition refreshEvents (s : Store) (f0 f1 f2 : bool) : list Event :=
  [ EvSelectGame (if f0 then None else Some (st_game s));
    EvSelectPlayers (if f1 then None else Some (st_players s));
    EvSelectMoves (if f2 then None else Some (st_moves s)) ].

(** Which of the three writes of a validated move fail (requests 2, 3, 4 of
    the handler); every other request succeeds. *)
Definition failing (insertFails playerFails gameFails : bool) : nat -> bool :=
  fun n =>
    match n with
    | 2%nat => insertFails
    | 3%nat => playerFails
    | 4%nat => gameFails
    | _ => false
    end.

Definition transport_type_eqb (a b : transport_type) : bool :=
  match a, b with
  | taxi, taxi | bus, bus | underground, underground | black, black => true
  | _, _ => false
  end.

(** No ticket counter of the roster is negative. *)
Definition ticketsNonNegative (rows : list Player.Row) : Prop :=
  forall p k, In p rows -> 0 <= ticketCount p k.

(** ** The rest of the render *)

(** A JavaScript object keyed by row ids, the keys in the order they were
    first assigned. *)
Fixpoint assign {V : Type} (obj : list (string * V)) (key : string) (v : V)
  : list (string * V) :=
  match obj with
  | [] => [(key, v)]
  | (k, w) :: rest =>
      if String.eqb k key then (k, v) :: rest else (k, w) :: assign rest key v
  end.

(** [obj[key]]; [None] for [undefined]. *)
Fixpoint lookup {V : Type} (obj : list (string * V)) (key : string) : option V :=
  match obj with
  | [] => None
  | (k, w) :: rest => if String.eqb k key then Some w else lookup rest key
  end.

(** [players.reduce((acc, p) => { acc[p.id] = { position, role }; return acc }, {})] *)
Definition playerPositions (players : list Player.Row)
  : list (string * (Z * player_role)) :=
  fold_left
    (fun acc p => assign acc (Player.id p) (Player.current_position p, Player.role p))
    players [].

(** The line under "Turn n". *)
Inductive TurnLine :=
| WaitingForPlayers
| CurrentTurn (role : player_role) (you : bool).

(** A ticket button: [disabled], and whether it shows as the selected one. *)
Record TicketButton := {
  disabled : bool;
  selected : bool;
  tickets : Z
}.

Inductive BadgeVariant := VariantDefault | VariantSecondary | VariantOutline.
Inductive BadgeLabel := LabelYou | LabelMoving | LabelPlayer.

(** A row of the "Players" card. *)
Record PlayerLine := {
  line_role : player_role;
  line_highlighted : bool;
  line_variant : BadgeVariant;
  line_label : BadgeLabel
}.

(** What the component puts on the screen. *)
Record View := {
  view_name : string;
  view_role : player_role;
  view_playerPositions : list (string * (Z * player_role));
  view_currentPosition : Z;
  view_availableMoves : list Z;
  view_showMrX : bool;
  view_turn : Z;
  view_turnLine : TurnLine;
  view_startGame : bool;
  view_taxi : TicketButton;
  view_bus : TicketButton;
  view_underground : TicketButton;
  view_black : option TicketButton;
  view_players : list PlayerLine
}.

Inductive Rendered :=
| Loading
| Board (v : View)
| RenderThrows.

Definition option_transport_eqb (a : option transport_type) (b : transport_type) : bool :=
  match a with
  | Some a => transport_type_eqb a b
  | None => false
  end.

Section Render.

Variable localeCompare : string -> string -> Z.

(** [disabled={!isMyTurn || currentPlayer.<t>_tickets === 0}] and
    [variant={selectedTransport === t ? 'default' : 'outline'}] *)
Definition ticketButton (c : Client) (currentPlayer : Player.Row) (mine : bool)
  (t : transport_type) : TicketButton :=
  {| disabled := negb mine || (ticketCount currentPlayer t =? 0);
     selected := option_transport_eqb (selectedTransport c) t;
     tickets := ticketCount currentPlayer t |}.

(** A row of [players.map(...)], the active player known. *)
Definition playerLine (c : Client) (activePlayer p : Player.Row) : PlayerLine :=
  {| line_role := Player.role p;
     line_highlighted := String.eqb (Player.id activePlayer) (Player.id p);
     line_variant :=
       if String.eqb (Player.id p) (Player.id activePlayer) then VariantDefault
       else if String.eqb (Player.user_id p) (userId c) then VariantSecondary
       else VariantOutline;
     line_label :=
       if String.eqb (Player.user_id p) (userId c) then LabelYou
       else if String.eqb (Player.id activePlayer) (Player.id p) then LabelMoving
       else LabelPlayer |}.

(** The body of the component below its handlers.  Reading a property of
    [activePlayer] when it is [undefined] throws: in [isMyTurn] while the
    game is in progress, in the turn line unless the game is waiting, and in
    every row of the players card. *)
Definition render (c : Client) : Rendered :=
  match game c, currentPlayer c with
  | Some game, Some currentPlayer =>
      let activePlayer := renderActivePlayer localeCompare game (players c) in
      let turnLine :=
        if game_status_eqb (Game.status game) waiting then Some WaitingForPlayers
        else option_map
               (fun ap => CurrentTurn (Player.role ap)
                            (String.eqb (Player.user_id ap) (userId c)))
               activePlayer in
      let lines :=
        match activePlayer, players c with
        | Some ap, ps => Some (map (playerLine c ap) ps)
        | None, [] => Some []
        | None, _ :: _ => None
        end in
      match isMyTurn localeCompare game (players c) currentPlayer, turnLine, lines with
      | Some mine, Some turnLine, Some lines =>
          Board
            {| view_name := Game.name game;
               view_role := Player.role currentPlayer;
               view_playerPositions := playerPositions (players c);
               view_currentPosition := Player.current_position currentPlayer;
               view_availableMoves := availableMoves c;
               view_showMrX := showMrX game currentPlayer;
               view_turn := Game.current_turn game;
               view_turnLine := turnLine;
               view_startGame := startGameButton c;
               view_taxi := ticketButton c currentPlayer mine taxi;
               view_bus := ticketButton c currentPlayer mine bus;
               view_underground := ticketButton c currentPlayer mine underground;
               view_black :=
                 if player_role_eqb (Player.role currentPlayer) mr_x
                 then Some (ticketButton c currentPlayer mine black)
                 else None;
               view_players := lines |}
      | _, _, _ => RenderThrows
      end
  | _, _ => Loading
  end.

(** The ticket button of a transport on the screen, if there is one. *)
Definition buttonOf (v : View) (t : transport_type) : option TicketButton :=
  match t with
  | taxi => Some (view_taxi v)
  | bus => Some (view_bus v)
  | underground => Some (view_underground v)
  | black => view_black v
  end.

(** The user can click the button of [t]: it is rendered and not disabled. *)
Definition canSelect (c : Client) (t : transport_type) : bool :=
  match render c with
  | Board v =>
      match buttonOf v t with
      | Some b => negb (disabled b)
      | None => false
      end
  | _ => false
  end.

End Render.

(** ** More of what a run can be asked *)

(** The component's cells agree: [currentPlayer] is the first row of
    [players] with the user's id, as [fetchGameData] sets them. *)
Definition cellsAgree (c : Client) : Prop :=
  currentPlayer c = find (fun p => String.eqb (Player.user_id p) (userId c)) (players c).

(** What of a player row decides the roster and its order. *)
Definition rosterEntry (p : Player.Row) : string * string * player_role * string :=
  (Player.id p, Player.user_id p, Player.role p, Player.created_at p).


(** [handleMove] after its two selects, both answered from [s]: what is left
    of the handler when it resumes. *)
Definition afterSelects (c : Client) (toPosition : Z) (s : Store) : Proc Client :=
  snd (step (snd (step (handleMove c toPosition) s false)) s false).

(** ** The collation of the browser

    [a.localeCompare(b)] with no locale argument compares by the default
    collation of the browser, the root collation of the Unicode Collation
    Algorithm.  It is not the order of the character codes: punctuation
    comes before the digits and the digits before the letters, and of the
    punctuation a time stamp is written with, the hyphen comes before the
    colon, the colon before the full stop and the full stop before the plus
    sign (in character codes the plus sign, 43, is in front of the full stop,
    46).  [collationRank] is that rank for the characters of a [created_at]
    column; strings over them are compared rank by rank from the left, a
    proper prefix first. *)
Definition collationRank (ch : ascii) : Z :=
  let n := Z.of_nat (nat_of_ascii ch) in
  if n =? 45 then 1
  else if n =? 58 then 2
  else if n =? 46 then 3
  else if n =? 43 then 4
  else if (48 <=? n) && (n <=? 57) then 10 + (n - 48)
  else 100 + n.

Fixpoint rootCollation (a b : string) : Z :=
  match a, b with
  | EmptyString, EmptyString => 0
  | EmptyString, String _ _ => -1
  | String _ _, EmptyString => 1
  | String x a', String y b' =>
      if collationRank x <? collationRank y then -1
      else if collationRank y <? collationRank x then 1
      else rootCollation a' b'
  end.

(** ** Scenarios

    Concrete rows, stores and browser tabs used to exercise the handlers. *)
Module Scenario.
Local Open Scope string_scope.

Definition player (id user created_at : string) (role : player_role)
  (position taxi_tickets : Z) : Player.Row :=
  {| Player.black_tickets := match role with mr_x => 5 | detective => 0 end;
     Player.bus_tickets := 8;
     Player.created_at := created_at;
     Player.current_position := position;
     Player.game_id := "g1";
     Player.id := id;
     Player.is_active := true;
     Player.role := role;
     Player.taxi_tickets := taxi_tickets;
     Player.underground_tickets := 4;
     Player.user_id := user |}.

Definition playerA := player "pA" "uA" "2024-05-20T10:15:30.120000+00:00" mr_x 10 1.
Definition playerB := player "pB" "uB" "2024-05-20T10:16:02.480000+00:00" detective 30 1.
Definition playerC := player "pC" "uC" "2024-05-20T10:17:45.910000+00:00" detective 50 10.

Definition gameAt (turn : Z) (st : game_status) : Game.Row :=
  {| Game.created_at := "2024-05-20T10:15:00.000000+00:00";
     Game.current_turn := turn;
     Game.id := "g1";
     Game.mr_x_player := Some "uA";
     Game.name := "chase";
     Game.status := st;
     Game.updated_at := "2024-05-20T10:15:00.000000+00:00";
     Game.winner := None |}.

(** Two players, the game just started: turn 0, A (Mr. X) to move. *)
Definition store0 : Store :=
  {| st_game := gameAt 0 in_progress;
     st_players := [playerA; playerB];
     st_moves := [] |}.

(** Three players at turn 4: B to move. *)
Definition store4 : Store :=
  {| st_game := gameAt 4 in_progress;
     st_players := [playerA; playerB; playerC];
     st_moves := [] |}.

Definition lobby2 : Store :=
  {| st_game := gameAt 0 waiting; st_players := [playerA; playerB];
     st_moves := [] |}.

(** A freshly mounted component: the initial [useState] values. *)
Definition mounted (user : string) : Client :=
  {| gameId := "g1"; userId := user; game := None; players := [];
     currentPlayer := None; moves := []; selectedTransport := None;
     availableMoves := []; toasts := [] |}.

(** A tab of [user] after the [fetchGameData] of its first effect. *)
Definition tab (user : string) (s : Store) : Client :=
  result (run (fetchGameData (mounted user)) s noFaults).

(** A small map: three taxi rides and one bus ride from every station. *)
Definition getAllAvailableMoves (position : Z) : AvailableMoves.t :=
  {| AvailableMoves.taxi := [position + 1; position + 5; position + 10];
     AvailableMoves.bus := [position + 20];
     AvailableMoves.underground := [] |}.

(** The tab with a transport chosen. *)
Definition tabWith (user : string) (s : Store) (t : transport_type) : Client :=
  handleTransportSelect getAllAvailableMoves (tab user s) t.

(** A's tab at the start of the game, taxi chosen. *)
Definition tabA : Client := tabWith "uA" store0 taxi.

(** A rides to 15; the three writes land but the refresh that follows gets
    no answer, so the tab keeps the rows of its first fetch. *)
Definition firstMove := run (handleMove tabA 15) store0 (fun n => Nat.leb 5 n).

(** B, on a tab of its own, answers with a ride to 31. *)
Definition secondMove :=
  run (handleMove (tabWith "uB" (finalStore firstMove) taxi) 31)
      (finalStore firstMove) noFaults.

(** A's turn again, on the tab that still shows the first fetch: taxi, 20. *)
Definition staleTabA : Client :=
  handleTransportSelect getAllAvailableMoves (result firstMove) taxi.
Definition thirdMove :=
  run (handleMove staleTabA 20) (finalStore secondMove) noFaults.

(** Two tabs of B at turn 4, both showing the same rows, both with taxi
    chosen. *)
Definition tabB1 : Client := tabWith "uB" store4 taxi.
Definition tabB2 : Client := tabWith "uB" store4 taxi.
(** Code-unit order of two strings as a comparator; on time stamps of one
    shape, which differ in digits only, every collation agrees with it. *)
Definition codeUnitCompare (a b : string) : Z :=
  match String.compare a b with
  | Lt => -1
  | Eq => 0
  | Gt => 1
  end.

(** A game whose first player joined on a whole second: the store writes
    that time stamp with no fraction.  The second player joined half a
    second later; the store, which compares the instants, answers
    [.order('created_at')] with the first player in front. *)
Definition onTheSecond :=
  player "pA" "uA" "2024-05-20T10:15:30+00:00" mr_x 10 3.
Definition halfASecondLater :=
  player "pB" "uB" "2024-05-20T10:15:30.5+00:00" detective 30 3.
Definition storeOnTheSecond : Store :=
  {| st_game := gameAt 0 in_progress;
     st_players := [onTheSecond; halfASecondLater];
     st_moves := [] |}.



End Scenario.

(** * Properties *)

Arguments ticketCount : simpl never.
Arguments activePlayer : simpl never.
Arguments isRevealTurn : simpl never.
Arguments updatePlayers : simpl never.
Arguments newMove : simpl never.
Arguments updates : simpl never.
Arguments spread : simpl never.
Arguments insertMove : simpl never.
Arguments updatePlayer : simpl never.
Arguments updateGame : simpl never.

(** ** Turn logic *)

Lemma rem_is_mod (t n : Z) : 0 <= t -> 0 < n -> Z.rem t n = t mod n.
Proof. intros Ht Hn. apply Z.rem_mod_nonneg; lia. Qed.

Lemma currentTurnIndex_some (t : Z) (n : nat) :
  (1 <= n)%nat -> currentTurnIndex t n = Some (Z.rem t (Z.of_nat n)).
Proof.
  intros Hn. unfold currentTurnIndex.
  destruct (Z.eqb_spec (Z.of_nat n) 0) as [E | _]; [lia | reflexivity].
Qed.

Lemma activePlayer_nil (t : Z) : activePlayer [] t = None.
Proof. reflexivity. Qed.

(** C7. For a roster of n >= 1 players and a turn counter t >= 0 the active
    player is [roster[t mod n]]: the index lies in [0, n), the lookup finds a
    player, and [activePlayer] returns that player (it is a function, so the
    same roster and counter give the same player).  Over t >= 0 it has no
    player exactly on the empty roster. *)
Theorem activePlayer_total (roster : list Player.Row) (t : Z) :
  0 <= t ->
  ((1 <= List.length roster)%nat ->
   exists i p,
     currentTurnIndex t (List.length roster) = Some i
     /\ i = t mod Z.of_nat (List.length roster)
     /\ 0 <= i < Z.of_nat (List.length roster)
     /\ nth_error roster (Z.to_nat i) = Some p
     /\ activePlayer roster t = Some p)
  /\ (activePlayer roster t = None <-> roster = []).
Proof.
  intros Ht.
  assert (Hsome : (1 <= List.length roster)%nat ->
    exists i p,
      currentTurnIndex t (List.length roster) = Some i
      /\ i = t mod Z.of_nat (List.length roster)
      /\ 0 <= i < Z.of_nat (List.length roster)
      /\ nth_error roster (Z.to_nat i) = Some p
      /\ activePlayer roster t = Some p).
  { intros Hn.
    set (n := Z.of_nat (List.length roster)).
    assert (Hpos : 0 < n) by (unfold n; lia).
    assert (Hrange : 0 <= t mod n < n) by (apply Z.mod_pos_bound; exact Hpos).
    destruct (nth_error roster (Z.to_nat (t mod n))) as [p |] eqn:Hnth.
    - exists (t mod n), p.
      unfold activePlayer. rewrite (currentTurnIndex_some t _ Hn).
      fold n. rewrite (rem_is_mod t n Ht Hpos). unfold index.
      destruct (Z.ltb_spec (t mod n) 0) as [Hneg | _]; [lia |].
      subst n. repeat split; try reflexivity; try assumption; try (apply Hrange).
    - apply nth_error_None in Hnth.
      assert (Z.of_nat (List.length roster) <= t mod n) by lia. lia. }
  split; [exact Hsome |].
  split.
  - intros Hnone. destruct roster as [| p rest]; [reflexivity |].
    destruct Hsome as (i & q & _ & _ & _ & _ & Hq); [simpl; lia |].
    congruence.
  - intros ->. apply activePlayer_nil.
Qed.

Lemma activePlayer_total_witness :
  0 <= 4
  /\ (1 <= List.length (st_players Scenario.store4))%nat
  /\ exists i p,
       currentTurnIndex 4 (List.length (st_players Scenario.store4)) = Some i
       /\ i = 4 mod Z.of_nat (List.length (st_players Scenario.store4))
       /\ 0 <= i < Z.of_nat (List.length (st_players Scenario.store4))
       /\ nth_error (st_players Scenario.store4) (Z.to_nat i) = Some p
       /\ activePlayer (st_players Scenario.store4) 4 = Some p.
Proof.
  split; [lia |]. split; [simpl; lia |].
  apply (activePlayer_total (st_players Scenario.store4) 4); [lia | simpl; lia].
Defined.

(** ** The reveal schedule *)

Lemma isRevealTurn_spec (t : Z) :
  isRevealTurn t = true <-> (t = 1 \/ t mod 3 = 0).
Proof.
  unfold isRevealTurn. rewrite orb_true_iff, !Z.eqb_eq.
  rewrite (Z.rem_divide t 3), (Z.mod_divide t 3) by lia. tauto.
Qed.

(** ** Runs of [handleMove] *)

Ltac case_await faults :=
  match goal with
  | |- context [match currentPlayer ?c with _ => _ end] =>
      destruct (currentPlayer c) eqn:?
  | |- context [match selectedTransport ?c with _ => _ end] =>
      destruct (selectedTransport c) eqn:?
  | |- context [match game ?c with _ => _ end] =>
      destruct (game c) eqn:?
  | |- context [match activePlayer ?l ?t with _ => _ end] =>
      destruct (activePlayer l t) eqn:?
  | |- context [if negb (String.eqb ?a ?b) then _ else _] =>
      destruct (String.eqb a b) eqn:?
  | |- context [if Z.leb ?a ?b then _ else _] =>
      destruct (Z.leb a b) eqn:?
  | |- context [if Z.ltb ?a ?b then _ else _] =>
      destruct (Z.ltb a b) eqn:?
  | |- context [if faults ?n then _ else _] =>
      destruct (faults n) eqn:?
  end.

(** Follow a handler through every branch and every failing request. *)
Ltac run_cases faults := repeat (cbn; case_await faults); cbn.

Lemma setAvailableMoves_gameId (l : list Z) (t : option transport_type) (c : Client) :
  newMove (setAvailableMoves l (setSelectedTransport t c)) = newMove c.
Proof. reflexivity. Qed.

(** A validated move makes its three writes one after the other, whatever
    the earlier ones answered, and reports by the last one alone. *)
Lemma handleMove_validated (c : Client) (s : Store) (toPosition : Z)
  (faults : nat -> bool) (cp : Player.Row) (tt : transport_type) :
  Validated c s faults cp tt ->
  let r := run (handleMove c toPosition) s faults in
  finalStore r = committed c s faults cp tt toPosition
  /\ requests r =
       [ EvSelectGame (Some (st_game s));
         EvSelectPlayers (Some (st_players s));
         EvInsertMove (newMove c cp toPosition tt (st_game s))
                      (writeError (faults 2%nat));
         EvUpdatePlayer (Player.id cp)
                        (updates toPosition tt (ticketCount cp tt))
                        (writeError (faults 3%nat));
         EvUpdateGame (SetCurrentTurn (Game.current_turn (st_game s) + 1))
                      (writeError (faults 4%nat)) ]
       ++ (if faults 4%nat then []
           else refreshEvents (committed c s faults cp tt toPosition)
                  (faults 5%nat) (faults 6%nat) (faults 7%nat))
  /\ toasts (result r) =
       toasts c ++ [ if faults 4%nat
                     then FailedToMakeMove (ThrownUpdateError PostgrestError)
                     else MoveCompleted ]
  /\ selectedTransport (result r) = (if faults 4%nat then Some tt else None)
  /\ availableMoves (result r) = [].
Proof.
  intros [(Hcp & Htt & Hgame & F0 & F1 & ap & Hact & Hid) Hpos].
  unfold handleMove, fetchGameData, committed, refreshEvents, writeError.
  destruct (game c) as [g0 |]; [| congruence].
  rewrite Hcp, Htt. cbn. rewrite F0. cbn. rewrite F1. cbn.
  unfold spread. rewrite Hact, Hid, String.eqb_refl. cbn.
  destruct (Z.leb_spec (ticketCount cp tt) 0) as [Hle | _]; [lia |].
  rewrite setAvailableMoves_gameId.
  run_cases faults; repeat split; reflexivity.
Qed.

Lemma in_writes (ev : Event) (tr : list Event) :
  In ev tr -> isWrite ev = true -> In ev (writes tr).
Proof. intros Hin Hw. apply filter_In. split; assumption. Qed.

(** When [handleMove] reaches its ticket check with a count that is not
    positive it stops there: two selects, no write, the selection restored. *)
Lemma handleMove_no_tickets (c : Client) (s : Store) (toPosition : Z)
  (faults : nat -> bool) (cp : Player.Row) (tt : transport_type) :
  ReachesTicketCheck c s faults cp tt ->
  ticketCount cp tt <= 0 ->
  run (handleMove c toPosition) s faults =
    (s,
     setSelectedTransport (Some tt)
       (toast (NoTicketsLeft tt)
          (setAvailableMoves [] (setSelectedTransport None c))),
     [ EvSelectGame (Some (st_game s)); EvSelectPlayers (Some (st_players s)) ]).
Proof.
  intros (Hcp & Htt & Hgame & F0 & F1 & ap & Hact & Hid) Hle.
  unfold handleMove.
  destruct (game c) as [g0 |]; [| congruence].
  rewrite Hcp, Htt. cbn. rewrite F0. cbn. rewrite F1. cbn.
  unfold spread. rewrite Hact, Hid, String.eqb_refl. cbn.
  destruct (Z.leb_spec (ticketCount cp tt) 0) as [_ | Hgt]; [reflexivity | lia].
Qed.

(** Every run of [handleMove] either validates the move, or leaves the store
    as it was: it makes no write, and shows at most one toast, a rejection. *)
Lemma handleMove_outcomes (c : Client) (s : Store) (toPosition : Z)
  (faults : nat -> bool) :
  let r := run (handleMove c toPosition) s faults in
  (exists cp tt, Validated c s faults cp tt)
  \/ (finalStore r = s
      /\ writes (requests r) = []
      /\ (result r = c
          \/ exists t, toasts (result r) = toasts c ++ [t] /\ isRejection t = true)).
Proof.
  unfold handleMove, fetchGameData, spread.
  destruct (currentPlayer c) as [cp |] eqn:Hcp; [| right; cbn; auto].
  destruct (selectedTransport c) as [tt |] eqn:Htt; [| right; cbn; auto].
  destruct (game c) as [g0 |] eqn:Hgame; [| right; cbn; auto].
  cbn.
  destruct (faults 0%nat) eqn:F0; cbn;
    [right; repeat split; right; eexists; split; reflexivity |].
  destruct (faults 1%nat) eqn:F1; cbn;
    [right; repeat split; right; eexists; split; reflexivity |].
  destruct (activePlayer (st_players s) (Game.current_turn (st_game s)))
    as [ap |] eqn:Hact; cbn;
    [| right; repeat split; right; eexists; split; reflexivity].
  destruct (String.eqb_spec (Player.id cp) (Player.id ap)) as [Hid | Hid]; cbn;
    [| right; repeat split; right; eexists; split; reflexivity].
  destruct (Z.leb_spec (ticketCount cp tt) 0) as [Hle | Hgt]; cbn;
    [right; repeat split; right; eexists; split; reflexivity |].
  left. exists cp, tt. unfold Validated, ReachesTicketCheck.
  repeat split; try assumption; [congruence | exists ap; split; assumption].
Qed.

(** The write requests of a run: none, or the three of a validated move. *)
Lemma handleMove_writes (c : Client) (s : Store) (toPosition : Z)
  (faults : nat -> bool) :
  let r := run (handleMove c toPosition) s faults in
  (finalStore r = s /\ writes (requests r) = [])
  \/ exists cp tt,
       Validated c s faults cp tt
       /\ writes (requests r) =
            [ EvInsertMove (newMove c cp toPosition tt (st_game s))
                           (writeError (faults 2%nat));
              EvUpdatePlayer (Player.id cp)
                             (updates toPosition tt (ticketCount cp tt))
                             (writeError (faults 3%nat));
              EvUpdateGame (SetCurrentTurn (Game.current_turn (st_game s) + 1))
                           (writeError (faults 4%nat)) ].
Proof.
  intros r.
  destruct (handleMove_outcomes c s toPosition faults) as [(cp & tt & V) | (Hs & Hw & _)].
  - right. exists cp, tt. split; [exact V |].
    destruct (handleMove_validated c s toPosition faults cp tt V) as (_ & Hreq & _).
    unfold r. rewrite Hreq. unfold refreshEvents.
    destruct (faults 4%nat); reflexivity.
  - left. split; assumption.
Qed.

Lemma validated_unique (c : Client) (s : Store) (faults : nat -> bool)
  (cp cp' : Player.Row) (tt tt' : transport_type) :
  Validated c s faults cp tt -> Validated c s faults cp' tt' -> cp = cp' /\ tt = tt'.
Proof.
  intros [(Hcp & Htt & _) _] [(Hcp' & Htt' & _) _]. split; congruence.
Qed.

Lemma committed_current_turn (c : Client) (s : Store) (faults : nat -> bool)
  (cp : Player.Row) (tt : transport_type) (toPosition : Z) :
  Game.current_turn (st_game (committed c s faults cp tt toPosition)) =
    if faults 4%nat then Game.current_turn (st_game s)
    else Game.current_turn (st_game s) + 1.
Proof.
  unfold committed. destruct (faults 2%nat), (faults 3%nat), (faults 4%nat); reflexivity.
Qed.

Lemma committed_moves (c : Client) (s : Store) (faults : nat -> bool)
  (cp : Player.Row) (tt : transport_type) (toPosition : Z) :
  st_moves (committed c s faults cp tt toPosition) =
    if faults 2%nat then st_moves s
    else st_moves s ++ [newMove c cp toPosition tt (st_game s)].
Proof.
  unfold committed. destruct (faults 2%nat), (faults 3%nat), (faults 4%nat); reflexivity.
Qed.

Lemma committed_players (c : Client) (s : Store) (faults : nat -> bool)
  (cp : Player.Row) (tt : transport_type) (toPosition : Z) :
  st_players (committed c s faults cp tt toPosition) =
    if faults 3%nat then st_players s
    else updatePlayers (Player.id cp)
           (updates toPosition tt (ticketCount cp tt)) (st_players s).
Proof.
  unfold committed. destruct (faults 2%nat), (faults 3%nat), (faults 4%nat); reflexivity.
Qed.

Lemma committed_game (c : Client) (s : Store) (faults : nat -> bool)
  (cp : Player.Row) (tt : transport_type) (toPosition : Z) :
  st_game (committed c s faults cp tt toPosition) =
    if faults 4%nat then st_game s
    else Game.set_current_turn (Game.current_turn (st_game s) + 1) (st_game s).
Proof.
  unfold committed. destruct (faults 2%nat), (faults 3%nat), (faults 4%nat); reflexivity.
Qed.

(** Proves [Validated] on concrete rows. *)
Ltac validate :=
  unfold Validated, ReachesTicketCheck;
  repeat split;
  try reflexivity;
  try (vm_compute; discriminate);
  try (eexists; split; reflexivity).

(** C10. Once [handleMove] has validated a move it sends the insert, the
    player update and the game update in this order whatever the first two
    answer, and what it reports depends on the answer of the game update
    alone: the success toast, with the turn counter advanced, if and only
    if that update reported no error; otherwise the failure toast, the turn
    counter as it was. *)
Theorem commit_reports_by_game_update (c : Client) (s : Store) (toPosition : Z)
  (faults : nat -> bool) (cp : Player.Row) (tt : transport_type) :
  Validated c s faults cp tt ->
  let r := run (handleMove c toPosition) s faults in
  writes (requests r) =
    [ EvInsertMove (newMove c cp toPosition tt (st_game s))
                   (writeError (faults 2%nat));
      EvUpdatePlayer (Player.id cp)
                     (updates toPosition tt (ticketCount cp tt))
                     (writeError (faults 3%nat));
      EvUpdateGame (SetCurrentTurn (Game.current_turn (st_game s) + 1))
                   (writeError (faults 4%nat)) ]
  /\ (toasts (result r) = toasts c ++ [MoveCompleted] <-> faults 4%nat = false)
  /\ (faults 4%nat = false ->
      Game.current_turn (st_game (finalStore r)) = Game.current_turn (st_game s) + 1)
  /\ (faults 4%nat = true ->
      toasts (result r) =
        toasts c ++ [FailedToMakeMove (ThrownUpdateError PostgrestError)]
      /\ Game.current_turn (st_game (finalStore r)) = Game.current_turn (st_game s)).
Proof.
  intros V r.
  destruct (handleMove_validated c s toPosition faults cp tt V)
    as (Hstore & _ & Htoast & _).
  destruct (handleMove_writes c s toPosition faults) as [(_ & Hw) | (cp' & tt' & V' & Hw)].
  - destruct (handleMove_validated c s toPosition faults cp tt V) as (_ & Hreq & _).
    unfold r in *. rewrite Hreq in Hw. discriminate Hw.
  - destruct (validated_unique _ _ _ _ _ _ _ V V') as [<- <-].
    fold r in Hstore, Htoast.
    rewrite Hstore, Htoast, committed_current_turn.
    split; [exact Hw |].
    destruct (faults 4%nat).
    + split; [split; intros H; [apply app_inv_head in H |]; discriminate |].
      split; [discriminate |]. intros _. split; reflexivity.
    + split; [split; reflexivity |].
      split; [reflexivity |]. discriminate.
Qed.

Lemma commit_reports_by_game_update_witness :
  Validated Scenario.tabA Scenario.store0 (failing true true false)
    Scenario.playerA taxi
  /\ toasts (result (run (handleMove Scenario.tabA 15) Scenario.store0
                         (failing true true false))) = [MoveCompleted]
  /\ Game.current_turn
       (st_game (finalStore (run (handleMove Scenario.tabA 15) Scenario.store0
                                 (failing true true false)))) = 1.
Proof.
  assert (V : Validated Scenario.tabA Scenario.store0 (failing true true false)
                Scenario.playerA taxi) by validate.
  split; [exact V |].
  destruct (commit_reports_by_game_update _ _ 15 _ _ _ V) as (_ & Hiff & Hturn & _).
  split; [apply Hiff; reflexivity | apply Hturn; reflexivity].
Defined.

(** ** The three writes are not one transaction *)

Lemma validated_failing (c : Client) (s : Store) (cp : Player.Row)
  (tt : transport_type) (b2 b3 b4 : bool) :
  Validated c s noFaults cp tt -> Validated c s (failing b2 b3 b4) cp tt.
Proof. intros V. exact V. Qed.

(** C4 (as the code has it). The commit is not atomic.  After validation the
    insert into [moves], the update of the player and the update of the game
    are three requests; each one is in the store as soon as it succeeds and
    none is undone when a later one fails.  Whichever of the three fail, the
    store ends with exactly the effects of the others, so a failure after a
    successful write leaves a part of the move for every reader to see. *)
Theorem writes_commit_independently (c : Client) (s : Store) (toPosition : Z)
  (cp : Player.Row) (tt : transport_type) (insertFails playerFails gameFails : bool) :
  Validated c s noFaults cp tt ->
  let r := run (handleMove c toPosition) s (failing insertFails playerFails gameFails) in
  st_moves (finalStore r) =
    (if insertFails then st_moves s
     else st_moves s ++ [newMove c cp toPosition tt (st_game s)])
  /\ st_players (finalStore r) =
    (if playerFails then st_players s
     else updatePlayers (Player.id cp)
            (updates toPosition tt (ticketCount cp tt)) (st_players s))
  /\ st_game (finalStore r) =
    (if gameFails then st_game s
     else Game.set_current_turn (Game.current_turn (st_game s) + 1) (st_game s)).
Proof.
  intros V r.
  pose proof (validated_failing c s cp tt insertFails playerFails gameFails V) as V'.
  destruct (handleMove_validated c s toPosition _ cp tt V') as (Hstore & _).
  fold r in Hstore. rewrite Hstore.
  rewrite committed_moves, committed_players, committed_game.
  repeat split; reflexivity.
Qed.

Lemma writes_commit_independently_witness :
  Validated Scenario.tabA Scenario.store0 noFaults Scenario.playerA taxi
  /\ st_moves (finalStore (run (handleMove Scenario.tabA 15) Scenario.store0
                               (failing false true false))) =
       [newMove Scenario.tabA Scenario.playerA 15 taxi (st_game Scenario.store0)]
  /\ st_players (finalStore (run (handleMove Scenario.tabA 15) Scenario.store0
                                 (failing false true false))) =
       st_players Scenario.store0.
Proof.
  assert (V : Validated Scenario.tabA Scenario.store0 noFaults Scenario.playerA taxi)
    by validate.
  split; [exact V |].
  destruct (writes_commit_independently Scenario.tabA Scenario.store0 15
              Scenario.playerA taxi false true false V) as (Hm & Hp & _).
  split; [exact Hm | exact Hp].
Defined.

(** C4, refuted as stated: the game update of A's first move fails after the
    insert and the player update went through.  The move is in the log and A
    stands on 15 with the ticket spent, the turn counter is still 0, and the
    handler reports a failure. *)
Lemma commit_is_not_atomic :
  let r := run (handleMove Scenario.tabA 15) Scenario.store0 (failing false false true) in
  map Move.to_position (st_moves (finalStore r)) = [15]
  /\ map Player.current_position (st_players (finalStore r)) = [15; 30]
  /\ map Player.taxi_tickets (st_players (finalStore r)) = [0; 1]
  /\ Game.current_turn (st_game (finalStore r)) = 0
  /\ toasts (result r) = [FailedToMakeMove (ThrownUpdateError PostgrestError)].
Proof. vm_compute. repeat split; reflexivity. Qed.

(** ** What the inserted row records *)

Lemma handleMove_insert (c : Client) (s : Store) (toPosition : Z)
  (faults : nat -> bool) (m : Move.Row) (e : option StoreError) :
  In (EvInsertMove m e) (requests (run (handleMove c toPosition) s faults)) ->
  exists cp tt,
    Validated c s faults cp tt
    /\ m = newMove c cp toPosition tt (st_game s)
    /\ e = writeError (faults 2%nat).
Proof.
  intros Hin. apply in_writes in Hin; [| reflexivity].
  destruct (handleMove_writes c s toPosition faults)
    as [(_ & Hw) | (cp & tt & V & Hw)]; rewrite Hw in Hin.
  - destruct Hin.
  - exists cp, tt. split; [exact V |].
    destruct Hin as [H | [H | [H | []]]]; try discriminate H.
    injection H as <- <-. split; reflexivity.
Qed.

Lemma handleMove_update (c : Client) (s : Store) (toPosition : Z)
  (faults : nat -> bool) (id : string) (patch : PlayerUpdate)
  (e : option StoreError) :
  In (EvUpdatePlayer id patch e) (requests (run (handleMove c toPosition) s faults)) ->
  exists cp tt,
    Validated c s faults cp tt
    /\ id = Player.id cp
    /\ patch = updates toPosition tt (ticketCount cp tt)
    /\ e = writeError (faults 3%nat).
Proof.
  intros Hin. apply in_writes in Hin; [| reflexivity].
  destruct (handleMove_writes c s toPosition faults)
    as [(_ & Hw) | (cp & tt & V & Hw)]; rewrite Hw in Hin.
  - destruct Hin.
  - exists cp, tt. split; [exact V |].
    destruct Hin as [H | [H | [H | []]]]; try discriminate H.
    injection H as <- <- <-. repeat split.
Qed.

(** C5 (as the code has it). The row a run of [handleMove] inserts carries
    as [turn_number] the turn counter of the game row that this run fetched
    (the stored counter, as long as no other client writes in between), and
    as [from_position] the position in the player row the handler holds, the
    one its tab fetched last, whatever position the store has by now. *)
Theorem inserted_move_fields (c : Client) (s : Store) (toPosition : Z)
  (faults : nat -> bool) (m : Move.Row) (e : option StoreError) :
  In (EvInsertMove m e) (requests (run (handleMove c toPosition) s faults)) ->
  exists cp,
    currentPlayer c = Some cp
    /\ Move.player_id m = Player.id cp
    /\ Move.turn_number m = Game.current_turn (st_game s)
    /\ Move.from_position m = Player.current_position cp
    /\ Move.to_position m = toPosition.
Proof.
  intros Hin.
  destruct (handleMove_insert _ _ _ _ _ _ Hin) as (cp & tt & [(Hcp & _) _] & -> & _).
  exists cp. repeat split; [exact Hcp].
Qed.

Lemma inserted_move_fields_witness :
  exists m,
    In (EvInsertMove m None)
       (requests (run (handleMove Scenario.staleTabA 20)
                      (finalStore Scenario.secondMove) noFaults))
    /\ exists cp,
         currentPlayer Scenario.staleTabA = Some cp
         /\ Move.player_id m = Player.id cp
         /\ Move.turn_number m = Game.current_turn (st_game (finalStore Scenario.secondMove))
         /\ Move.from_position m = Player.current_position cp
         /\ Move.to_position m = 20.
Proof.
  assert (Hin : In (EvInsertMove
                      (newMove Scenario.staleTabA Scenario.playerA 20 taxi
                         (st_game (finalStore Scenario.secondMove))) None)
                   (requests (run (handleMove Scenario.staleTabA 20)
                                  (finalStore Scenario.secondMove) noFaults)))
    by (vm_compute; tauto).
  eexists. split; [exact Hin |].
  exact (inserted_move_fields _ _ _ _ _ _ Hin).
Defined.

(** C5, refuted as stated: A moved to 15 on turn 0 and B moved on turn 1;
    A's tab still holds the rows of its first fetch.  On turn 2 the store
    has A on 15, and the row that A's move inserts says it left from 10. *)
Lemma from_position_is_the_cached_one :
  map Player.current_position (st_players (finalStore Scenario.secondMove)) = [15; 31]
  /\ activePlayer (st_players (finalStore Scenario.secondMove))
       (Game.current_turn (st_game (finalStore Scenario.secondMove)))
     = nth_error (st_players (finalStore Scenario.secondMove)) 0
  /\ map (fun m => (Move.player_id m, Move.turn_number m, Move.from_position m))
         (skipn 2 (st_moves (finalStore Scenario.thirdMove)))
     = [(Player.id Scenario.playerA, 2, 10)]
  /\ toasts (result Scenario.thirdMove) = [MoveCompleted; MoveCompleted].
Proof. vm_compute. repeat split; reflexivity. Qed.

(** ** The reveal schedule and the [revealed] column *)

(** C1 (as the code has it). A turn number is a reveal turn exactly when it
    is 1 or a multiple of 3; turn 0 is a multiple of 3 and so is a reveal
    turn.  The row a run of [handleMove] inserts has [revealed] set exactly
    when the player the handler holds is Mr. X and the turn number of the
    row, the counter the run fetched, is a reveal turn. *)
Theorem reveal_schedule :
  (forall t, isRevealTurn t = true <-> (t = 1 \/ t mod 3 = 0))
  /\ isRevealTurn 0 = true
  /\ (forall c s toPosition faults m e,
        In (EvInsertMove m e) (requests (run (handleMove c toPosition) s faults)) ->
        exists cp,
          currentPlayer c = Some cp
          /\ Move.turn_number m = Game.current_turn (st_game s)
          /\ Move.revealed m =
               player_role_eqb (Player.role cp) mr_x && isRevealTurn (Move.turn_number m)).
Proof.
  split; [exact isRevealTurn_spec |].
  split; [reflexivity |].
  intros c s toPosition faults m e Hin.
  destruct (handleMove_insert _ _ _ _ _ _ Hin) as (cp & tt & [(Hcp & _) _] & -> & _).
  exists cp. repeat split; [exact Hcp].
Qed.

Lemma reveal_schedule_witness :
  exists m,
    In (EvInsertMove m None)
       (requests (run (handleMove Scenario.tabA 15) Scenario.store0 noFaults))
    /\ exists cp,
         currentPlayer Scenario.tabA = Some cp
         /\ Move.turn_number m = Game.current_turn (st_game Scenario.store0)
         /\ Move.revealed m =
              player_role_eqb (Player.role cp) mr_x && isRevealTurn (Move.turn_number m).
Proof.
  assert (Hin : In (EvInsertMove
                      (newMove Scenario.tabA Scenario.playerA 15 taxi
                         (st_game Scenario.store0)) None)
                   (requests (run (handleMove Scenario.tabA 15) Scenario.store0 noFaults)))
    by (vm_compute; tauto).
  eexists. split; [exact Hin |].
  destruct reveal_schedule as (_ & _ & H).
  exact (H _ _ _ _ _ _ Hin).
Defined.

(** C1, refuted as stated: turn 0 is a reveal turn, and the move Mr. X makes
    on turn 0 (taxi from 10 to 15, every request answered) is stored with
    [revealed] set. *)
Lemma turn_zero_is_a_reveal_turn :
  isRevealTurn 0 = true
  /\ isMrXRevealTurn (st_game Scenario.store0) = true
  /\ map (fun m => (Move.turn_number m, Move.revealed m))
         (st_moves (finalStore (run (handleMove Scenario.tabA 15)
                                    Scenario.store0 noFaults)))
     = [(0, true)].
Proof. vm_compute. repeat split; reflexivity. Qed.

(** ** The ticket check *)

Lemma toasts_grow (l : list Toast) (t : Toast) : l <> l ++ [t].
Proof.
  intros H. apply (f_equal (@List.length Toast)) in H.
  rewrite List.length_app in H. simpl in H. lia.
Qed.

Lemma toast_last_inv (l : list Toast) (a b : Toast) :
  l ++ [a] = l ++ [b] -> a = b.
Proof. intros H. apply app_inv_head in H. congruence. Qed.

Lemma activePlayer_ids (l l' : list Player.Row) (t : Z) :
  map Player.id l = map Player.id l' ->
  option_map Player.id (activePlayer l t) = option_map Player.id (activePlayer l' t).
Proof.
  intros Hids.
  assert (Hlen : List.length l = List.length l').
  { rewrite <- (List.length_map Player.id l), Hids. apply List.length_map. }
  unfold activePlayer, index. rewrite Hlen.
  destruct (currentTurnIndex t (List.length l')) as [i |]; [| reflexivity].
  destruct (i <? 0); [reflexivity |].
  rewrite <- !nth_error_map, Hids. reflexivity.
Qed.

(** Reaching the ticket check depends on the fetched game row and on the
    ids of the fetched roster, not on what else its rows hold. *)
Lemma reachesTicketCheck_ids (c : Client) (s s' : Store) (faults : nat -> bool)
  (cp : Player.Row) (tt : transport_type) :
  st_game s' = st_game s ->
  map Player.id (st_players s') = map Player.id (st_players s) ->
  ReachesTicketCheck c s faults cp tt -> ReachesTicketCheck c s' faults cp tt.
Proof.
  intros Hgame Hids (Hcp & Htt & Hg & F0 & F1 & ap & Hact & Hid).
  pose proof (activePlayer_ids _ _ (Game.current_turn (st_game s)) Hids) as Hsame.
  rewrite Hact in Hsame. unfold ReachesTicketCheck. rewrite Hgame.
  destruct (activePlayer (st_players s') (Game.current_turn (st_game s)))
    as [ap' |]; [| discriminate].
  simpl in Hsame. injection Hsame as Hsame.
  repeat split; try assumption. exists ap'. split; [reflexivity | congruence].
Qed.

(** C3 (as the code has it). The ticket check of [handleMove] reads the count
    of the chosen transport in the player row the handler holds (the row its
    tab fetched last), not in the rows it has just fetched for the turn
    check.  Once the turn check has passed: when that count is 0 or less the
    move is turned down with the no-tickets toast, nothing is written and the
    transport selection is restored; when it is positive the move goes on to
    the insert.  The counts in the store play no part: a store with the same
    game row and the same player ids, whatever its ticket counts, gets the
    same toast. *)
Theorem ticket_check_reads_held_row (c : Client) (s : Store) (toPosition : Z)
  (faults : nat -> bool) (cp : Player.Row) (tt : transport_type) :
  ReachesTicketCheck c s faults cp tt ->
  let r := run (handleMove c toPosition) s faults in
  (ticketCount cp tt <= 0 ->
     finalStore r = s
     /\ requests r =
          [ EvSelectGame (Some (st_game s)); EvSelectPlayers (Some (st_players s)) ]
     /\ toasts (result r) = toasts c ++ [NoTicketsLeft tt]
     /\ selectedTransport (result r) = Some tt)
  /\ (0 < ticketCount cp tt ->
     In (EvInsertMove (newMove c cp toPosition tt (st_game s))
                      (writeError (faults 2%nat)))
        (requests r)
     /\ toasts (result r) =
          toasts c ++ [ if faults 4%nat
                        then FailedToMakeMove (ThrownUpdateError PostgrestError)
                        else MoveCompleted ])
  /\ (forall s',
        st_game s' = st_game s ->
        map Player.id (st_players s') = map Player.id (st_players s) ->
        toasts (result (run (handleMove c toPosition) s' faults)) = toasts (result r)).
Proof.
  intros Hreach r.
  assert (Hstop : forall s0, ReachesTicketCheck c s0 faults cp tt ->
            ticketCount cp tt <= 0 ->
            toasts (result (run (handleMove c toPosition) s0 faults))
            = toasts c ++ [NoTicketsLeft tt]).
  { intros s0 H0 Hle.
    rewrite (handleMove_no_tickets c s0 toPosition faults cp tt H0 Hle). reflexivity. }
  assert (Hgo : forall s0, ReachesTicketCheck c s0 faults cp tt ->
            0 < ticketCount cp tt ->
            toasts (result (run (handleMove c toPosition) s0 faults))
            = toasts c ++ [ if faults 4%nat
                            then FailedToMakeMove (ThrownUpdateError PostgrestError)
                            else MoveCompleted ]).
  { intros s0 H0 Hpos.
    destruct (handleMove_validated c s0 toPosition faults cp tt (conj H0 Hpos))
      as (_ & _ & Htoast & _).
    exact Htoast. }
  split; [| split].
  - intros Hle. unfold r.
    rewrite (handleMove_no_tickets c s toPosition faults cp tt Hreach Hle).
    repeat split.
  - intros Hpos. split; [| exact (Hgo s Hreach Hpos)].
    destruct (handleMove_validated c s toPosition faults cp tt (conj Hreach Hpos))
      as (_ & Hreq & _).
    fold r in Hreq. rewrite Hreq. simpl. tauto.
  - intros s' Hgame Hids.
    pose proof (reachesTicketCheck_ids c s s' faults cp tt Hgame Hids Hreach) as Hreach'.
    unfold r. destruct (Z.le_gt_cases (ticketCount cp tt) 0) as [Hle | Hpos].
    + rewrite (Hstop s' Hreach' Hle), (Hstop s Hreach Hle). reflexivity.
    + rewrite (Hgo s' Hreach' Hpos), (Hgo s Hreach Hpos). reflexivity.
Qed.

Lemma ticket_check_reads_held_row_witness :
  ReachesTicketCheck Scenario.staleTabA (finalStore Scenario.secondMove) noFaults
    Scenario.playerA taxi
  /\ 0 < ticketCount Scenario.playerA taxi
  /\ toasts (result (run (handleMove Scenario.staleTabA 20)
                         (finalStore Scenario.secondMove) noFaults))
     = toasts Scenario.staleTabA ++ [MoveCompleted].
Proof.
  assert (Hreach : ReachesTicketCheck Scenario.staleTabA
                     (finalStore Scenario.secondMove) noFaults Scenario.playerA taxi).
  { unfold ReachesTicketCheck. repeat split; try reflexivity.
    - vm_compute. discriminate.
    - eexists. split; vm_compute; reflexivity. }
  assert (Hpos : 0 < ticketCount Scenario.playerA taxi) by reflexivity.
  split; [exact Hreach |]. split; [exact Hpos |].
  destruct (ticket_check_reads_held_row Scenario.staleTabA
              (finalStore Scenario.secondMove) 20 noFaults Scenario.playerA taxi Hreach)
    as (_ & H & _).
  exact (proj2 (H Hpos)).
Defined.

(** C3, refuted as stated: on turn 2 the rows that A's move fetches show A
    with no taxi ticket left; the tab still holds A's row of its first fetch,
    with one.  The move is not turned down: it is inserted and reported as
    completed. *)
Lemma fetched_ticket_count_is_not_checked :
  map (fun p => (Player.id p, ticketCount p taxi))
      (st_players (finalStore Scenario.secondMove))
    = [(Player.id Scenario.playerA, 0); (Player.id Scenario.playerB, 0)]
  /\ option_map (fun p => ticketCount p taxi) (currentPlayer Scenario.staleTabA) = Some 1
  /\ writes (requests Scenario.thirdMove)
     = [ EvInsertMove
           (newMove Scenario.staleTabA Scenario.playerA 20 taxi
                    (st_game (finalStore Scenario.secondMove))) None;
         EvUpdatePlayer (Player.id Scenario.playerA) (updates 20 taxi 1) None;
         EvUpdateGame (SetCurrentTurn 3) None ]
  /\ toasts (result Scenario.thirdMove) = toasts Scenario.staleTabA ++ [MoveCompleted].
Proof. vm_compute. repeat split; reflexivity. Qed.

(** ** The ticket ledger *)

Lemma ticketCount_applied (patch : PlayerUpdate) (p : Player.Row) (k : transport_type) :
  ticketCount (applyPlayerUpdate patch p) k =
    if transport_type_eqb k (upd_ticketField patch) then upd_tickets patch
    else ticketCount p k.
Proof.
  destruct patch as [pos f n]. destruct k, f; reflexivity.
Qed.

Lemma transport_type_eqb_eq (a b : transport_type) :
  transport_type_eqb a b = true <-> a = b.
Proof. destruct a, b; simpl; split; congruence. Qed.

Lemma updatePlayers_nonneg (id : string) (patch : PlayerUpdate)
  (rows : list Player.Row) :
  0 <= upd_tickets patch ->
  ticketsNonNegative rows -> ticketsNonNegative (updatePlayers id patch rows).
Proof.
  intros Hn Hrows p k Hin. unfold updatePlayers in Hin.
  apply in_map_iff in Hin. destruct Hin as (q & <- & Hq).
  destruct (String.eqb (Player.id q) id).
  - rewrite ticketCount_applied.
    destruct (transport_type_eqb k (upd_ticketField patch)); [exact Hn | auto].
  - auto.
Qed.

Lemma activePlayer_In (roster : list Player.Row) (t : Z) (p : Player.Row) :
  activePlayer roster t = Some p -> In p roster.
Proof.
  unfold activePlayer, index.
  destruct (currentTurnIndex t (List.length roster)) as [i |]; [| discriminate].
  destruct (i <? 0); [discriminate |]. apply nth_error_In.
Qed.

(** A move is reported as completed only after it was validated and the
    update of the game was accepted. *)
Lemma completed_validated (c : Client) (s : Store) (toPosition : Z)
  (faults : nat -> bool) :
  toasts (result (run (handleMove c toPosition) s faults))
    = toasts c ++ [MoveCompleted] ->
  (exists cp tt, Validated c s faults cp tt) /\ faults 4%nat = false.
Proof.
  intros Hdone.
  destruct (handleMove_outcomes c s toPosition faults)
    as [(cp & tt & V) | (_ & _ & Ht)].
  - split; [exists cp, tt; exact V |].
    destruct (handleMove_validated c s toPosition faults cp tt V)
      as (_ & _ & Htoast & _).
    rewrite Htoast in Hdone. apply toast_last_inv in Hdone.
    destruct (faults 4%nat); [discriminate | reflexivity].
  - destruct Ht as [Hc | (t & Ht & Hrej)].
    + rewrite Hc in Hdone. destruct (toasts_grow _ _ Hdone).
    + rewrite Ht in Hdone. apply toast_last_inv in Hdone.
      subst t. discriminate Hrej.
Qed.

(** C8 (as the code has it). The count that [handleMove] checks and debits
    is the one of the player row the tab holds, [held].  In every run,
    whatever fails, the ticket counters of the store stay non-negative.  A
    move is reported as completed only when [held] was positive, and then
    the handler has sent exactly three writes, the second of them the update
    of its own player that sets the counter of the chosen transport to
    [held - 1]; the player has a row in the store, and when the store accepts
    that update every stored row of the player has the counter at
    [held - 1], the other three counters as they were: one less than the
    stored counter for a row whose stored counter was [held], and a
    different step for a row whose stored counter was not.  With [held] at 0
    (or less) no write is made, the store is left as it was, the move is not
    reported as completed, and, the turn check passed, the no-tickets toast
    is shown with the selection restored. *)
Theorem debit_is_of_the_held_count (c : Client) (s : Store) (toPosition : Z)
  (faults : nat -> bool) (cp : Player.Row) (tt : transport_type) :
  currentPlayer c = Some cp ->
  selectedTransport c = Some tt ->
  let r := run (handleMove c toPosition) s faults in
  let held := ticketCount cp tt in
  let patch := updates toPosition tt held in
  (ticketsNonNegative (st_players s) -> ticketsNonNegative (st_players (finalStore r)))
  /\ (toasts (result r) = toasts c ++ [MoveCompleted] ->
        0 < held
        /\ writes (requests r) =
             [ EvInsertMove (newMove c cp toPosition tt (st_game s))
                            (writeError (faults 2%nat));
               EvUpdatePlayer (Player.id cp) patch (writeError (faults 3%nat));
               EvUpdateGame (SetCurrentTurn (Game.current_turn (st_game s) + 1)) None ]
        /\ (exists p, In p (st_players s) /\ Player.id p = Player.id cp)
        /\ st_players (finalStore r) =
             (if faults 3%nat then st_players s
              else updatePlayers (Player.id cp) patch (st_players s))
        /\ (faults 3%nat = false ->
              (exists p', In p' (st_players (finalStore r))
                          /\ Player.id p' = Player.id cp)
              /\ (forall p', In p' (st_players (finalStore r)) ->
                             Player.id p' = Player.id cp ->
                             ticketCount p' tt = held - 1)
              /\ (forall p, In p (st_players s) -> Player.id p = Player.id cp ->
                    In (applyPlayerUpdate patch p) (st_players (finalStore r))
                    /\ (forall k, k <> tt ->
                          ticketCount (applyPlayerUpdate patch p) k = ticketCount p k)
                    /\ (ticketCount p tt = held ->
                          ticketCount (applyPlayerUpdate patch p) tt
                          = ticketCount p tt - 1)
                    /\ (ticketCount p tt <> held ->
                          ticketCount (applyPlayerUpdate patch p) tt
                          <> ticketCount p tt - 1))
              /\ (forall p, In p (st_players s) -> Player.id p <> Player.id cp ->
                    In p (st_players (finalStore r)))))
  /\ (held <= 0 ->
        finalStore r = s
        /\ writes (requests r) = []
        /\ toasts (result r) <> toasts c ++ [MoveCompleted]
        /\ (ReachesTicketCheck c s faults cp tt ->
              toasts (result r) = toasts c ++ [NoTicketsLeft tt]
              /\ selectedTransport (result r) = Some tt)).
Proof.
  intros Hcp Htt r held patch.
  assert (Hmine : forall cp' tt', Validated c s faults cp' tt' -> cp' = cp /\ tt' = tt).
  { intros cp' tt' [(Hcp' & Htt' & _) _]. split; congruence. }
  assert (Hset : forall p, ticketCount (applyPlayerUpdate patch p) tt = held - 1).
  { intros p. rewrite ticketCount_applied. unfold patch, updates. simpl.
    destruct tt; reflexivity. }
  split; [| split].
  - intros Hnn.
    destruct (handleMove_outcomes c s toPosition faults)
      as [(cp' & tt' & V) | (Hs & _)].
    + destruct (Hmine _ _ V) as [-> ->].
      destruct (handleMove_validated c s toPosition faults cp tt V) as (Hstore & _).
      fold r in Hstore. rewrite Hstore, committed_players.
      destruct (faults 3%nat); [exact Hnn |].
      apply updatePlayers_nonneg; [| exact Hnn].
      destruct V as [_ Hpos]. unfold updates. simpl. lia.
    + fold r in Hs. rewrite Hs. exact Hnn.
  - intros Hdone.
    destruct (completed_validated c s toPosition faults Hdone)
      as [(cp' & tt' & V) F4].
    destruct (Hmine _ _ V) as [-> ->].
    destruct (handleMove_validated c s toPosition faults cp tt V)
      as (Hstore & Hreq & _).
    fold r in Hstore, Hreq.
    assert (Hroster : st_players (finalStore r) =
              (if faults 3%nat then st_players s
               else updatePlayers (Player.id cp) patch (st_players s))).
    { rewrite Hstore. apply committed_players. }
    destruct V as [(_ & _ & _ & _ & _ & ap & Hact & Hid) Hpos].
    apply activePlayer_In in Hact.
    split; [exact Hpos |]. split.
    { rewrite Hreq, F4. reflexivity. }
    split; [exists ap; split; [exact Hact | symmetry; exact Hid] |].
    split; [exact Hroster |].
    intros F3. rewrite F3 in Hroster. rewrite Hroster.
    assert (Hin : forall p, In p (st_players s) -> Player.id p = Player.id cp ->
                    In (applyPlayerUpdate patch p)
                       (updatePlayers (Player.id cp) patch (st_players s))).
    { intros p Hp Hpid. unfold updatePlayers. apply in_map_iff. exists p.
      split; [| exact Hp]. rewrite Hpid, String.eqb_refl. reflexivity. }
    split; [| split; [| split]].
    + exists (applyPlayerUpdate patch ap).
      split; [apply Hin; [exact Hact | symmetry; exact Hid] |].
      simpl. symmetry. exact Hid.
    + intros p' Hp' Hpid. unfold updatePlayers in Hp'.
      apply in_map_iff in Hp'. destruct Hp' as (q & <- & Hq).
      destruct (String.eqb_spec (Player.id q) (Player.id cp)) as [_ | Hne].
      * apply Hset.
      * contradiction.
    + intros p Hp Hpid. split; [apply Hin; assumption |]. split; [| split].
      * intros k Hk. rewrite ticketCount_applied. unfold patch, updates. simpl.
        destruct (transport_type_eqb k tt) eqn:E; [| reflexivity].
        apply transport_type_eqb_eq in E. contradiction.
      * intros Hsame. rewrite Hset. lia.
      * intros Hother. rewrite Hset. lia.
    + intros p Hp Hpid. unfold updatePlayers. apply in_map_iff. exists p.
      split; [| exact Hp].
      destruct (String.eqb_spec (Player.id p) (Player.id cp)); [contradiction | reflexivity].
  - intros Hle.
    destruct (handleMove_outcomes c s toPosition faults)
      as [(cp' & tt' & V) | (Hs & Hw & Ht)].
    + destruct (Hmine _ _ V) as [-> ->]. destruct V as [_ Hpos]. unfold held in Hle. lia.
    + fold r in Hs, Hw, Ht.
      split; [exact Hs |]. split; [exact Hw |]. split.
      * intros Hdone. destruct Ht as [Hc | (t & Ht & Hrej)].
        -- rewrite Hc in Hdone. destruct (toasts_grow _ _ Hdone).
        -- rewrite Ht in Hdone. apply toast_last_inv in Hdone.
           subst t. discriminate Hrej.
      * intros Hreach. unfold r.
        rewrite (handleMove_no_tickets c s toPosition faults cp tt Hreach Hle).
        split; reflexivity.
Qed.

Lemma debit_is_of_the_held_count_witness :
  currentPlayer Scenario.tabA = Some Scenario.playerA
  /\ selectedTransport Scenario.tabA = Some taxi
  /\ toasts (result (run (handleMove Scenario.tabA 15) Scenario.store0 noFaults))
     = toasts Scenario.tabA ++ [MoveCompleted]
  /\ 0 < ticketCount Scenario.playerA taxi
  /\ st_players (finalStore (run (handleMove Scenario.tabA 15) Scenario.store0 noFaults))
     = updatePlayers (Player.id Scenario.playerA)
         (updates 15 taxi (ticketCount Scenario.playerA taxi))
         (st_players Scenario.store0)
  /\ (exists p', In p' (st_players (finalStore (run (handleMove Scenario.tabA 15)
                                                    Scenario.store0 noFaults)))
                 /\ Player.id p' = Player.id Scenario.playerA)
  /\ map (fun p => (Player.id p, ticketCount p taxi)) (st_players Scenario.store0)
     = [(Player.id Scenario.playerA, 1); (Player.id Scenario.playerB, 1)]
  /\ map (fun p => (Player.id p, ticketCount p taxi))
         (st_players (finalStore (run (handleMove Scenario.tabA 15)
                                      Scenario.store0 noFaults)))
     = [(Player.id Scenario.playerA, 0); (Player.id Scenario.playerB, 1)].
Proof.
  assert (Hcp : currentPlayer Scenario.tabA = Some Scenario.playerA) by reflexivity.
  assert (Htt : selectedTransport Scenario.tabA = Some taxi) by reflexivity.
  assert (Hdone :
    toasts (result (run (handleMove Scenario.tabA 15) Scenario.store0 noFaults))
      = toasts Scenario.tabA ++ [MoveCompleted]) by (vm_compute; reflexivity).
  destruct (debit_is_of_the_held_count Scenario.tabA Scenario.store0 15
              noFaults Scenario.playerA taxi Hcp Htt)
    as (_ & Hdebit & _).
  destruct (Hdebit Hdone) as (Hpos & _ & _ & Hroster & Hrows).
  destruct (Hrows eq_refl) as (Hrow & _).
  split; [exact Hcp |]. split; [exact Htt |]. split; [exact Hdone |].
  split; [exact Hpos |]. split; [exact Hroster |]. split; [exact Hrow |].
  split; vm_compute; reflexivity.
Defined.

(** C8, refuted as stated: at turn 2 the store holds Mr. X with no taxi
    ticket; the tab still holds the row of its first fetch, with one.  The
    move by taxi is not turned down for want of a ticket: it is written and
    reported as completed, and the stored counter, 0 before, is 0 after, not
    one less. *)
Lemma move_without_a_stored_ticket :
  map (fun p => (Player.id p, ticketCount p taxi))
      (st_players (finalStore Scenario.secondMove))
    = [(Player.id Scenario.playerA, 0); (Player.id Scenario.playerB, 0)]
  /\ Game.current_turn (st_game (finalStore Scenario.secondMove)) = 2
  /\ toasts (result Scenario.thirdMove) = toasts Scenario.staleTabA ++ [MoveCompleted]
  /\ List.length (st_moves (finalStore Scenario.thirdMove))
     = S (List.length (st_moves (finalStore Scenario.secondMove)))
  /\ Game.current_turn (st_game (finalStore Scenario.thirdMove)) = 3
  /\ map (fun p => (Player.id p, ticketCount p taxi, Player.current_position p))
         (st_players (finalStore Scenario.thirdMove))
     = [(Player.id Scenario.playerA, 0, 20); (Player.id Scenario.playerB, 0, 31)]
  /\ existsb (fun t => match t with NoTicketsLeft _ => true | _ => false end)
             (toasts (result Scenario.thirdMove)) = false.
Proof. vm_compute. repeat split; reflexivity. Qed.

(** ** Starting the game *)





(** ** The two roster orders *)

Section StableSort.

Context {A : Type} (compare : A -> A -> Z).

Lemma insertSorted_front (a : A) (arr : list A) :
  HdRel (inOrder compare) a arr -> insertSorted compare a arr = a :: arr.
Proof.
  intros Hhd. destruct arr as [| b rest]; [reflexivity |].
  apply HdRel_inv in Hhd. simpl.
  destruct (Z.leb_spec (compare a b) 0) as [_ | Hgt]; [reflexivity |].
  unfold inOrder in Hhd. lia.
Qed.

(** Sorting an array that is in order already returns it as it is: equal
    elements keep their places. *)
Lemma sort_sorted_id (arr : list A) :
  Sorted (inOrder compare) arr -> sort compare arr = arr.
Proof.
  induction 1 as [| a arr Hsorted IH Hhd]; [reflexivity |].
  unfold sort in *. simpl. rewrite IH. apply insertSorted_front. exact Hhd.
Qed.

Hypothesis compare_total : forall a b, 0 < compare a b -> compare b a <= 0.

Lemma insertSorted_HdRel (x a : A) (arr : list A) :
  (inOrder compare) x a -> HdRel (inOrder compare) x arr -> HdRel (inOrder compare) x (insertSorted compare a arr).
Proof.
  intros Hxa Hhd. destruct arr as [| b rest]; simpl.
  - constructor. exact Hxa.
  - destruct (compare a b <=? 0).
    + constructor. exact Hxa.
    + constructor. apply HdRel_inv in Hhd. exact Hhd.
Qed.

Lemma insertSorted_sorted (a : A) (arr : list A) :
  Sorted (inOrder compare) arr -> Sorted (inOrder compare) (insertSorted compare a arr).
Proof.
  induction 1 as [| b rest Hsorted IH Hhd]; simpl.
  - repeat constructor.
  - destruct (Z.leb_spec (compare a b) 0) as [Hle | Hgt].
    + constructor; [constructor; assumption | constructor; exact Hle].
    + constructor; [exact IH |].
      apply insertSorted_HdRel; [apply compare_total; exact Hgt | exact Hhd].
Qed.

Lemma sort_sorted (arr : list A) : Sorted (inOrder compare) (sort compare arr).
Proof.
  induction arr as [| a arr IH]; [constructor |].
  unfold sort in *. simpl. apply insertSorted_sorted. exact IH.
Qed.

End StableSort.

Lemma Sorted_weaken {A : Type} (R R' : A -> A -> Prop) (l : list A) :
  (forall a b, R a b -> R' a b) -> Sorted R l -> Sorted R' l.
Proof.
  intros Himp. induction 1 as [| a l Hsorted IH Hhd]; constructor.
  - exact IH.
  - destruct Hhd; constructor. apply Himp. assumption.
Qed.

(** The render path sorts the roster it holds by [created_at] with the
    browser's [localeCompare] (a stable sort); the commit path takes the
    roster in the order of the store's answer.  Where the collation puts no
    time stamp behind one the store puts it before or level with, the sort
    of the render path finds the store's answer in order and leaves it as it
    is. *)
Lemma roster_orders_agree (localeCompare pgCompare : string -> string -> Z)
  (rows : list Player.Row) :
  (forall a b, 0 < pgCompare a b -> pgCompare b a <= 0) ->
  (forall a b, pgCompare a b <= 0 -> localeCompare a b <= 0) ->
  let latestPlayers := orderByCreatedAt pgCompare rows in
  sortedPlayers localeCompare latestPlayers = spread latestPlayers
  /\ forall game,
       renderActivePlayer localeCompare game latestPlayers
       = activePlayer (spread latestPlayers) (Game.current_turn game).
Proof.
  intros Htotal Hagree latestPlayers.
  assert (Hsame : sortedPlayers localeCompare latestPlayers = spread latestPlayers).
  { unfold sortedPlayers, spread. apply sort_sorted_id.
    apply (Sorted_weaken
             (inOrder (fun a b => pgCompare (Player.created_at a) (Player.created_at b)))).
    - intros a b. apply Hagree.
    - apply sort_sorted. intros a b. apply Htotal. }
  split; [exact Hsame |].
  intros game. unfold renderActivePlayer. rewrite Hsame. reflexivity.
Qed.

Lemma codeUnitCompare_total (a b : string) :
  0 < Scenario.codeUnitCompare a b -> Scenario.codeUnitCompare b a <= 0.
Proof.
  unfold Scenario.codeUnitCompare. rewrite (String.compare_antisym a b).
  destruct (String.compare b a); simpl; lia.
Qed.

Lemma roster_orders_agree_witness :
  sortedPlayers Scenario.codeUnitCompare
    (orderByCreatedAt Scenario.codeUnitCompare
       [Scenario.playerC; Scenario.playerA; Scenario.playerB])
  = spread (orderByCreatedAt Scenario.codeUnitCompare
              [Scenario.playerC; Scenario.playerA; Scenario.playerB])
  /\ orderByCreatedAt Scenario.codeUnitCompare
       [Scenario.playerC; Scenario.playerA; Scenario.playerB]
     = [Scenario.playerA; Scenario.playerB; Scenario.playerC].
Proof.
  split.
  - exact (proj1 (roster_orders_agree Scenario.codeUnitCompare Scenario.codeUnitCompare
                    [Scenario.playerC; Scenario.playerA; Scenario.playerB]
                    codeUnitCompare_total (fun a b H => H))).
  - vm_compute. reflexivity.
Defined.

(** C6, as the code runs.  The first player joined on a whole second, the
    second half a second later, and the store answers with the first in
    front.  The collation of the browser puts the later time stamp first (a
    full stop comes before a plus sign), so the render path sorts the
    roster the other way round, while the commit path keeps the store's
    order: at turn 0 the render path has the second player as the active
    one, the commit path the first.  The second player's tab shows the turn
    as its own and its ticket buttons enabled, and its move is turned down
    with the not-your-turn toast, nothing written; the first player's tab,
    which the commit path would accept, shows the buttons disabled. *)
Theorem render_and_commit_orders_differ :
  st_players Scenario.storeOnTheSecond
    = [Scenario.onTheSecond; Scenario.halfASecondLater]
  /\ rootCollation (Player.created_at Scenario.onTheSecond)
                   (Player.created_at Scenario.halfASecondLater) = 1
  /\ players (Scenario.tab "uB" Scenario.storeOnTheSecond)
     = st_players Scenario.storeOnTheSecond
  /\ sortedPlayers rootCollation (players (Scenario.tab "uB" Scenario.storeOnTheSecond))
     = [Scenario.halfASecondLater; Scenario.onTheSecond]
  /\ spread (st_players Scenario.storeOnTheSecond)
     = [Scenario.onTheSecond; Scenario.halfASecondLater]
  /\ renderActivePlayer rootCollation (st_game Scenario.storeOnTheSecond)
       (players (Scenario.tab "uB" Scenario.storeOnTheSecond))
     = Some Scenario.halfASecondLater
  /\ activePlayer (spread (st_players Scenario.storeOnTheSecond))
       (Game.current_turn (st_game Scenario.storeOnTheSecond))
     = Some Scenario.onTheSecond
  /\ isMyTurn rootCollation (st_game Scenario.storeOnTheSecond)
       (players (Scenario.tab "uB" Scenario.storeOnTheSecond))
       Scenario.halfASecondLater = Some true
  /\ canSelect rootCollation (Scenario.tab "uB" Scenario.storeOnTheSecond) taxi = true
  /\ run (handleMove (Scenario.tabWith "uB" Scenario.storeOnTheSecond taxi) 31)
         Scenario.storeOnTheSecond noFaults
     = (Scenario.storeOnTheSecond,
        toast NotYourTurn (Scenario.tab "uB" Scenario.storeOnTheSecond),
        [ EvSelectGame (Some (st_game Scenario.storeOnTheSecond));
          EvSelectPlayers (Some (st_players Scenario.storeOnTheSecond)) ])
  /\ isMyTurn rootCollation (st_game Scenario.storeOnTheSecond)
       (players (Scenario.tab "uA" Scenario.storeOnTheSecond))
       Scenario.onTheSecond = Some false
  /\ canSelect rootCollation (Scenario.tab "uA" Scenario.storeOnTheSecond) taxi = false
  /\ canSelect rootCollation (Scenario.tab "uA" Scenario.storeOnTheSecond) black = false.
Proof. vm_compute. repeat split; reflexivity. Qed.

(** ** Two clients on one turn *)

(** C2 (as the code has it). The update that advances the turn is sent to
    the game row by its id alone: whatever turn counter the store holds at
    that moment, an accepted update sets it to the value the handler fetched
    plus 1 and reports no error; no outcome of [handleMove] stands for a lost
    race.  So when two clients validate against the same stored state before
    either writes, both commits go through: both report success, both moves
    are in the log with the same turn number, and the turn counter has
    advanced by 1. *)
Theorem turn_advance_is_unconditional :
  (forall (stored : Store) (n : Z),
     serve stored false (UpdateGame (SetCurrentTurn n))
       = (updateGame (SetCurrentTurn n) stored, None)
     /\ Game.current_turn (st_game (updateGame (SetCurrentTurn n) stored)) = n)
  /\ (forall s ca cb toA toB cpA ttA cpB ttB,
        Validated ca s noFaults cpA ttA ->
        Validated cb s noFaults cpB ttB ->
        exists s' ca' cb',
          interleave raceSchedule s (handleMove ca toA) (handleMove cb toB)
            = (s', Ret ca', Ret cb')
          /\ toasts ca' = toasts ca ++ [MoveCompleted]
          /\ toasts cb' = toasts cb ++ [MoveCompleted]
          /\ st_moves s' =
               st_moves s ++ [ newMove ca cpA toA ttA (st_game s);
                               newMove cb cpB toB ttB (st_game s) ]
          /\ Game.current_turn (st_game s') = Game.current_turn (st_game s) + 1).
Proof.
  split; [intros stored n; split; reflexivity |].
  intros s ca cb toA toB cpA ttA cpB ttB
    [(HcpA & HttA & HgA & _ & _ & apA & HactA & HidA) HposA]
    [(HcpB & HttB & HgB & _ & _ & apB & HactB & HidB) HposB].
  assert (apB = apA) by congruence. subst apB.
  apply Z.leb_gt in HposA, HposB.
  unfold raceSchedule, handleMove, fetchGameData, spread.
  destruct (game ca) as [gA |]; [| congruence].
  destruct (game cb) as [gB |]; [| congruence].
  rewrite HcpA, HttA, HcpB, HttB. cbn.
  rewrite HactA, HidA, HidB, String.eqb_refl. cbn.
  rewrite HposA, HposB. cbn.
  do 3 eexists. split; [reflexivity |].
  cbn. repeat split.
  unfold insertMove, updatePlayer, updateGame; cbn.
  rewrite !setAvailableMoves_gameId, <- app_assoc. reflexivity.
Qed.

Lemma turn_advance_is_unconditional_witness :
  Validated Scenario.tabB1 Scenario.store4 noFaults Scenario.playerB taxi
  /\ Validated Scenario.tabB2 Scenario.store4 noFaults Scenario.playerB taxi
  /\ exists s' ca' cb',
       interleave raceSchedule Scenario.store4
         (handleMove Scenario.tabB1 31) (handleMove Scenario.tabB2 35)
         = (s', Ret ca', Ret cb')
       /\ toasts ca' = toasts Scenario.tabB1 ++ [MoveCompleted]
       /\ toasts cb' = toasts Scenario.tabB2 ++ [MoveCompleted]
       /\ st_moves s' =
            st_moves Scenario.store4
            ++ [ newMove Scenario.tabB1 Scenario.playerB 31 taxi (st_game Scenario.store4);
                 newMove Scenario.tabB2 Scenario.playerB 35 taxi (st_game Scenario.store4) ]
       /\ Game.current_turn (st_game s') = Game.current_turn (st_game Scenario.store4) + 1.
Proof.
  assert (V1 : Validated Scenario.tabB1 Scenario.store4 noFaults Scenario.playerB taxi)
    by validate.
  assert (V2 : Validated Scenario.tabB2 Scenario.store4 noFaults Scenario.playerB taxi)
    by validate.
  split; [exact V1 |]. split; [exact V2 |].
  exact (proj2 turn_advance_is_unconditional Scenario.store4 Scenario.tabB1
           Scenario.tabB2 31 35 Scenario.playerB taxi Scenario.playerB taxi V1 V2).
Defined.

(** C2, refuted as stated: two tabs of B hold turn 4 and both ride a taxi,
    one to 31 and one to 35, each fetching the game and the roster before the
    other writes.  Neither is turned down: both show the success toast, the
    log has two moves of B with turn number 4, B has paid one ticket, and the
    turn counter is 5. *)
Lemma both_racing_moves_are_accepted :
  exists s' ca' cb',
    interleave raceSchedule Scenario.store4
      (handleMove Scenario.tabB1 31) (handleMove Scenario.tabB2 35)
      = (s', Ret ca', Ret cb')
    /\ toasts ca' = [MoveCompleted]
    /\ toasts cb' = [MoveCompleted]
    /\ map (fun m => (Move.player_id m, Move.turn_number m, Move.to_position m))
           (st_moves s')
       = [ (Player.id Scenario.playerB, 4, 31); (Player.id Scenario.playerB, 4, 35) ]
    /\ map (fun p => ticketCount p taxi) (st_players s')
       = [1; 0; 10]
    /\ Game.current_turn (st_game s') = 5.
Proof.
  do 3 eexists. split; [vm_compute; reflexivity |].
  vm_compute. repeat split; reflexivity.
Qed.

(** * Further properties of the component *)

(** ** [fetchGameData] *)

Lemma fetchGameData_run (c : Client) (s : Store) (faults : nat -> bool) :
  run (fetchGameData c) s faults =
    (s,
     let c1 := if faults 0%nat then c else setGame (Some (st_game s)) c in
     let c2 :=
       if faults 1%nat then c1
       else setCurrentPlayer
              (find (fun p => String.eqb (Player.user_id p) (userId c)) (st_players s))
              (setPlayers (st_players s) c1) in
     if faults 2%nat then c2 else setMoves (st_moves s) c2,
     refreshEvents s (faults 0%nat) (faults 1%nat) (faults 2%nat)).
Proof.
  unfold fetchGameData, refreshEvents. cbn.
  destruct (faults 0%nat), (faults 1%nat), (faults 2%nat); reflexivity.
Qed.

(** X1. [fetchGameData] only reads: the store is as before and no write is
    requested.  Answered in full it replaces the game, the roster, the
    player and the moves of the tab by what the store holds, whatever the
    tab held, and leaves the selection, the offered moves and the toasts
    alone.  Refreshing again against the same store, with the same selects
    failing, changes nothing more. *)
Theorem refresh_is_a_snapshot (c : Client) (s : Store) (faults : nat -> bool) :
  let r := run (fetchGameData c) s faults in
  let fresh := result (run (fetchGameData c) s noFaults) in
  finalStore r = s
  /\ writes (requests r) = []
  /\ result (run (fetchGameData (result r)) s faults) = result r
  /\ game fresh = Some (st_game s)
  /\ players fresh = st_players s
  /\ moves fresh = st_moves s
  /\ currentPlayer fresh =
       find (fun p => String.eqb (Player.user_id p) (userId c)) (st_players s)
  /\ selectedTransport (result r) = selectedTransport c
  /\ availableMoves (result r) = availableMoves c
  /\ toasts (result r) = toasts c.
Proof.
  cbn zeta. rewrite !fetchGameData_run.
  unfold finalStore, result, requests, refreshEvents, noFaults. cbn.
  destruct (faults 0%nat), (faults 1%nat), (faults 2%nat); cbn; repeat split.
Qed.

(** ** The cells of the component *)

Lemma cellsAgree_find (c : Client) (cp : Player.Row) :
  cellsAgree c -> currentPlayer c = Some cp ->
  In cp (players c) /\ Player.user_id cp = userId c.
Proof.
  unfold cellsAgree. intros Hagree Hcp. rewrite Hcp in Hagree. symmetry in Hagree.
  apply find_some in Hagree. destruct Hagree as [Hin Heq].
  apply String.eqb_eq in Heq. split; assumption.
Qed.

Lemma fetchGameData_cellsAgree (c : Client) (s : Store) (faults : nat -> bool) :
  cellsAgree c -> cellsAgree (result (run (fetchGameData c) s faults)).
Proof.
  intros Hagree. rewrite fetchGameData_run. unfold result, cellsAgree in *. cbn.
  destruct (faults 0%nat), (faults 1%nat), (faults 2%nat); cbn; auto.
Qed.

Lemma handleMove_cellsAgree (c : Client) (s : Store) (toPosition : Z)
  (faults : nat -> bool) :
  cellsAgree c -> cellsAgree (result (run (handleMove c toPosition) s faults)).
Proof.
  intros Hagree. unfold handleMove, spread.
  destruct (currentPlayer c) as [cp |] eqn:Hcp; [| exact Hagree].
  destruct (selectedTransport c) as [tt |]; [| exact Hagree].
  destruct (game c) as [g0 |]; [| exact Hagree].
  assert (Hkept : forall t1 t2 l,
            cellsAgree (setSelectedTransport t1
                          (toast t2 (setAvailableMoves l (setSelectedTransport None c))))).
  { intros. unfold cellsAgree in *. cbn. exact Hagree. }
  assert (Hkept' : forall t2 l,
            cellsAgree (toast t2 (setAvailableMoves l (setSelectedTransport None c)))).
  { intros. unfold cellsAgree in *. cbn. exact Hagree. }
  cbn.
  destruct (faults 0%nat); cbn; [apply Hkept |].
  destruct (faults 1%nat); cbn; [apply Hkept |].
  destruct (activePlayer (st_players s) (Game.current_turn (st_game s))) as [ap |];
    cbn; [| apply Hkept].
  destruct (String.eqb (Player.id cp) (Player.id ap)); cbn; [| apply Hkept'].
  destruct (ticketCount cp tt <=? 0); cbn; [apply Hkept |].
  destruct (faults 2%nat), (faults 3%nat), (faults 4%nat); cbn; try apply Hkept.
  all: destruct (faults 5%nat), (faults 6%nat), (faults 7%nat);
    unfold cellsAgree in *; cbn; auto.
Qed.

(** X2. Every handler keeps the cells of the component in step:
    [currentPlayer] is the first row of [players] with the user's id (so it
    is one of the rows shown and it is the user's) before and after
    [fetchGameData], [handleMove], the start-game action and
    [handleTransportSelect], whatever requests fail. *)
Theorem handlers_keep_cells_in_step (c : Client) (s : Store)
  (faults : nat -> bool) (toPosition : Z) (t : transport_type)
  (getAllAvailableMoves : Z -> AvailableMoves.t) :
  cellsAgree c ->
  cellsAgree (result (run (fetchGameData c) s faults))
  /\ cellsAgree (result (run (handleMove c toPosition) s faults))
  /\ cellsAgree (result (run (clickStartGame c) s faults))
  /\ cellsAgree (handleTransportSelect getAllAvailableMoves c t)
  /\ forall cp, currentPlayer c = Some cp ->
       In cp (players c) /\ Player.user_id cp = userId c.
Proof.
  intros Hagree.
  split; [apply fetchGameData_cellsAgree; exact Hagree |].
  split; [apply handleMove_cellsAgree; exact Hagree |].
  split.
  { unfold clickStartGame, startGame.
    destruct (startGameButton c); [| exact Hagree].
    destruct (Z.of_nat (List.length (players c)) <? 2); cbn; [exact Hagree |].
    destruct (faults 0%nat); exact Hagree. }
  split.
  { unfold handleTransportSelect.
    destruct (currentPlayer c) as [cp |] eqn:Hcp; [| exact Hagree].
    unfold cellsAgree in *. cbn. exact Hagree. }
  intros cp. apply cellsAgree_find. exact Hagree.
Qed.

Lemma handlers_keep_cells_in_step_witness :
  cellsAgree (Scenario.mounted "uA")
  /\ cellsAgree (result (run (handleMove Scenario.tabA 15) Scenario.store0 noFaults)).
Proof.
  assert (H0 : cellsAgree (Scenario.mounted "uA")) by reflexivity.
  assert (H1 : cellsAgree Scenario.tabA) by reflexivity.
  split; [exact H0 |].
  exact (proj1 (proj2 (handlers_keep_cells_in_step Scenario.tabA Scenario.store0
                         noFaults 15 taxi Scenario.getAllAvailableMoves H1))).
Defined.

(** ** [handleTransportSelect] *)

(** X3. With a player in the tab, choosing the black ticket offers exactly
    the stations that the taxi, the bus or the underground offer from the
    player's position, and records black as the selected transport; with no
    player yet the handler leaves the tab as it is. *)
Theorem black_offers_the_union (getAllAvailableMoves : Z -> AvailableMoves.t)
  (c : Client) (cp : Player.Row) (station : Z) :
  currentPlayer c = Some cp ->
  (In station (availableMoves (handleTransportSelect getAllAvailableMoves c black))
   <-> In station (availableMoves (handleTransportSelect getAllAvailableMoves c taxi))
       \/ In station (availableMoves (handleTransportSelect getAllAvailableMoves c bus))
       \/ In station
            (availableMoves (handleTransportSelect getAllAvailableMoves c underground)))
  /\ selectedTransport (handleTransportSelect getAllAvailableMoves c black) = Some black
  /\ handleTransportSelect getAllAvailableMoves (setCurrentPlayer None c) black
     = setCurrentPlayer None c.
Proof.
  intros Hcp. unfold handleTransportSelect. rewrite Hcp. cbn.
  rewrite !in_app_iff. repeat split; tauto.
Qed.

Lemma black_offers_the_union_witness :
  currentPlayer Scenario.tabA = Some Scenario.playerA
  /\ (In 30 (availableMoves
               (handleTransportSelect Scenario.getAllAvailableMoves Scenario.tabA black))
      <-> In 30 (availableMoves
                   (handleTransportSelect Scenario.getAllAvailableMoves Scenario.tabA taxi))
          \/ In 30 (availableMoves
                      (handleTransportSelect Scenario.getAllAvailableMoves Scenario.tabA bus))
          \/ In 30 (availableMoves
                      (handleTransportSelect Scenario.getAllAvailableMoves Scenario.tabA
                         underground))).
Proof.
  assert (Hcp : currentPlayer Scenario.tabA = Some Scenario.playerA) by reflexivity.
  split; [exact Hcp |].
  exact (proj1 (black_offers_the_union Scenario.getAllAvailableMoves Scenario.tabA
                  Scenario.playerA 30 Hcp)).
Defined.

(** ** The order of turns *)

Lemma activePlayer_nth (roster : list Player.Row) (t : Z) :
  (1 <= List.length roster)%nat -> 0 <= t ->
  activePlayer roster t =
    nth_error roster (Z.to_nat (t mod Z.of_nat (List.length roster))).
Proof.
  intros Hn Ht. unfold activePlayer. rewrite (currentTurnIndex_some t _ Hn).
  rewrite rem_is_mod by lia. unfold index.
  pose proof (Z.mod_pos_bound t (Z.of_nat (List.length roster)) ltac:(lia)) as Hb.
  destruct (Z.ltb_spec (t mod Z.of_nat (List.length roster)) 0); [lia | reflexivity].
Qed.

(** X4. Turns go round the roster: for a roster of n >= 1 players and a
    counter t >= 0, the player to move at t + 1 is the one after the player
    to move at t, the first of the roster following the last; after n turns
    it is the same player's turn again. *)
Theorem turns_go_round_the_roster (roster : list Player.Row) (t : Z) :
  (1 <= List.length roster)%nat ->
  0 <= t ->
  let n := Z.of_nat (List.length roster) in
  activePlayer roster t = nth_error roster (Z.to_nat (t mod n))
  /\ activePlayer roster (t + 1) =
       nth_error roster
         (if t mod n + 1 =? n then 0%nat else S (Z.to_nat (t mod n)))
  /\ activePlayer roster (t + n) = activePlayer roster t.
Proof.
  intros Hn Ht n.
  assert (Hpos : 0 < n) by (unfold n; lia).
  pose proof (Z.mod_pos_bound t n Hpos) as Hb.
  rewrite !activePlayer_nth by lia. fold n.
  split; [reflexivity |]. split.
  - rewrite <- Zplus_mod_idemp_l.
    destruct (Z.eqb_spec (t mod n + 1) n) as [E | E].
    + rewrite E, Z_mod_same_full. reflexivity.
    + rewrite Z.mod_small by lia. f_equal. lia.
  - f_equal. f_equal. rewrite <- (Z.mul_1_l n) at 1. apply Z_mod_plus_full.
Qed.

Lemma turns_go_round_the_roster_witness :
  (1 <= List.length (st_players Scenario.store4))%nat
  /\ 0 <= 5
  /\ activePlayer (st_players Scenario.store4) (5 + 1)
     = nth_error (st_players Scenario.store4) 0.
Proof.
  assert (Hn : (1 <= List.length (st_players Scenario.store4))%nat) by (simpl; lia).
  assert (Ht : 0 <= 5) by lia.
  split; [exact Hn |]. split; [exact Ht |].
  exact (proj1 (proj2 (turns_go_round_the_roster (st_players Scenario.store4) 5 Hn Ht))).
Defined.

(** ** What [handleMove] leaves behind *)

Lemma updatePlayers_rosterEntry (id : string) (patch : PlayerUpdate)
  (rows : list Player.Row) :
  map rosterEntry (updatePlayers id patch rows) = map rosterEntry rows.
Proof.
  unfold updatePlayers. rewrite map_map. apply map_ext. intros p.
  destruct (String.eqb (Player.id p) id); reflexivity.
Qed.

Lemma updatePlayers_others (id : string) (patch : PlayerUpdate)
  (rows : list Player.Row) (p : Player.Row) :
  In p (updatePlayers id patch rows) -> Player.id p <> id -> In p rows.
Proof.
  unfold updatePlayers. intros Hin Hid. apply in_map_iff in Hin.
  destruct Hin as (q & Hq & Hin).
  destruct (String.eqb_spec (Player.id q) id) as [E | _].
  - subst p. destruct patch. simpl in Hid. contradiction.
  - subst p. exact Hin.
Qed.

(** X5. A run of [handleMove], whatever fails, leaves the roster who and
    where it was: the same rows in the same order with their ids, users,
    roles and join times, every row but the mover's untouched.  The log only
    grows, by at most the one new row, and of the game row nothing changes
    but the turn counter, which stays or goes up to the fetched counter
    plus 1. *)
Theorem handleMove_keeps_the_roster (c : Client) (s : Store) (toPosition : Z)
  (faults : nat -> bool) :
  let r := run (handleMove c toPosition) s faults in
  map rosterEntry (st_players (finalStore r)) = map rosterEntry (st_players s)
  /\ (forall cp p, currentPlayer c = Some cp ->
        In p (st_players (finalStore r)) -> Player.id p <> Player.id cp ->
        In p (st_players s))
  /\ (exists rest, st_moves (finalStore r) = st_moves s ++ rest
                   /\ (List.length rest <= 1)%nat)
  /\ (st_game (finalStore r) = st_game s
      \/ st_game (finalStore r) =
           Game.set_current_turn (Game.current_turn (st_game s) + 1) (st_game s)).
Proof.
  intros r.
  destruct (handleMove_outcomes c s toPosition faults)
    as [(cp & tt & V) | (Hs & _)].
  - destruct (handleMove_validated c s toPosition faults cp tt V) as (Hstore & _).
    fold r in Hstore. rewrite Hstore.
    rewrite committed_players, committed_moves, committed_game.
    split; [| split; [| split]].
    + destruct (faults 3%nat); [reflexivity | apply updatePlayers_rosterEntry].
    + intros cp' p Hcp' Hin Hid.
      assert (cp' = cp) by (destruct V as [(Hcp & _) _]; congruence). subst cp'.
      destruct (faults 3%nat); [exact Hin |].
      exact (updatePlayers_others _ _ _ _ Hin Hid).
    + destruct (faults 2%nat).
      * exists []. rewrite app_nil_r. split; [reflexivity | simpl; lia].
      * eexists. split; [reflexivity | simpl; lia].
    + destruct (faults 4%nat); [left | right]; reflexivity.
  - fold r in Hs. rewrite Hs. split; [reflexivity |]. split; [intros; assumption |].
    split; [| left; reflexivity].
    exists []. rewrite app_nil_r. split; [reflexivity | simpl; lia].
Qed.

Lemma handleMove_keeps_the_roster_witness :
  map rosterEntry
      (st_players (finalStore (run (handleMove Scenario.tabA 15) Scenario.store0 noFaults)))
  = map rosterEntry (st_players Scenario.store0).
Proof.
  exact (proj1 (handleMove_keeps_the_roster Scenario.tabA Scenario.store0 15 noFaults)).
Defined.

(** X6. Past its first guard [handleMove] shows exactly one toast and always
    leaves the list of offered moves empty.  It restores the transport
    selection on every failure except a wrong turn: after "not your turn" and
    after a completed move the selection is cleared. *)
Theorem selection_after_handleMove (c : Client) (s : Store) (toPosition : Z)
  (faults : nat -> bool) (cp : Player.Row) (tt : transport_type) :
  currentPlayer c = Some cp ->
  selectedTransport c = Some tt ->
  game c <> None ->
  let r := run (handleMove c toPosition) s faults in
  exists t,
    toasts (result r) = toasts c ++ [t]
    /\ availableMoves (result r) = []
    /\ selectedTransport (result r) =
         match t with
         | NotYourTurn | MoveCompleted => None
         | _ => Some tt
         end.
Proof.
  intros Hcp Htt Hgame r.
  destruct (handleMove_outcomes c s toPosition faults) as [(cp' & tt' & V) | _].
  - destruct (handleMove_validated c s toPosition faults cp' tt' V)
      as (_ & _ & Htoast & Hsel & Hav).
    assert (tt' = tt) by (destruct V as [(_ & Htt' & _) _]; congruence). subst tt'.
    fold r in Htoast, Hsel, Hav. eexists. split; [exact Htoast |].
    split; [exact Hav |]. rewrite Hsel. destruct (faults 4%nat); reflexivity.
  - unfold r, handleMove, spread. rewrite Hcp, Htt.
    destruct (game c) as [g0 |]; [| congruence]. cbn.
    destruct (faults 0%nat); cbn; [eexists; repeat split |].
    destruct (faults 1%nat); cbn; [eexists; repeat split |].
    destruct (activePlayer (st_players s) (Game.current_turn (st_game s))) as [ap |];
      cbn; [| eexists; repeat split].
    destruct (String.eqb (Player.id cp) (Player.id ap)); cbn;
      [| eexists; repeat split].
    destruct (ticketCount cp tt <=? 0); cbn; [eexists; repeat split |].
    destruct (faults 2%nat), (faults 3%nat), (faults 4%nat); cbn;
      try (eexists; repeat split; fail).
    all: destruct (faults 5%nat), (faults 6%nat), (faults 7%nat); cbn;
      eexists; repeat split.
Qed.

Lemma selection_after_handleMove_witness :
  currentPlayer Scenario.tabA = Some Scenario.playerA
  /\ selectedTransport Scenario.tabA = Some taxi
  /\ exists t,
       toasts (result (run (handleMove Scenario.tabA 15) Scenario.store4 noFaults))
         = toasts Scenario.tabA ++ [t]
       /\ availableMoves (result (run (handleMove Scenario.tabA 15) Scenario.store4 noFaults))
          = []
       /\ selectedTransport
            (result (run (handleMove Scenario.tabA 15) Scenario.store4 noFaults))
          = match t with
            | NotYourTurn | MoveCompleted => None
            | _ => Some taxi
            end.
Proof.
  assert (Hcp : currentPlayer Scenario.tabA = Some Scenario.playerA) by reflexivity.
  assert (Htt : selectedTransport Scenario.tabA = Some taxi) by reflexivity.
  assert (Hg : game Scenario.tabA <> None) by (vm_compute; discriminate).
  split; [exact Hcp |]. split; [exact Htt |].
  exact (selection_after_handleMove Scenario.tabA Scenario.store4 15 noFaults
           Scenario.playerA taxi Hcp Htt Hg).
Defined.

(** ** One move per turn, one after the other *)

Lemma handleMove_wrong_turn (c : Client) (s : Store) (toPosition : Z)
  (faults : nat -> bool) (cp ap : Player.Row) (tt : transport_type) :
  currentPlayer c = Some cp ->
  selectedTransport c = Some tt ->
  game c <> None ->
  faults 0%nat = false ->
  faults 1%nat = false ->
  activePlayer (st_players s) (Game.current_turn (st_game s)) = Some ap ->
  Player.id cp <> Player.id ap ->
  run (handleMove c toPosition) s faults =
    (s,
     toast NotYourTurn (setAvailableMoves [] (setSelectedTransport None c)),
     [ EvSelectGame (Some (st_game s)); EvSelectPlayers (Some (st_players s)) ]).
Proof.
  intros Hcp Htt Hgame F0 F1 Hact Hid.
  unfold handleMove, spread. rewrite Hcp, Htt.
  destruct (game c) as [g0 |]; [| congruence].
  cbn. rewrite F0. cbn. rewrite F1. cbn. rewrite Hact.
  apply String.eqb_neq in Hid. rewrite Hid. reflexivity.
Qed.

Lemma updatePlayers_ids (id : string) (patch : PlayerUpdate) (rows : list Player.Row) :
  map Player.id (updatePlayers id patch rows) = map Player.id rows.
Proof.
  unfold updatePlayers. rewrite map_map. apply map_ext. intros p.
  destruct (String.eqb (Player.id p) id); reflexivity.
Qed.

Lemma committed_ids (c : Client) (s : Store) (faults : nat -> bool)
  (cp : Player.Row) (tt : transport_type) (toPosition : Z) :
  map Player.id (st_players (committed c s faults cp tt toPosition))
  = map Player.id (st_players s).
Proof.
  rewrite committed_players.
  destruct (faults 3%nat); [reflexivity | apply updatePlayers_ids].
Qed.

(** In a roster without a repeated id the players to move at t and at t + 1
    have different ids, once there are two players. *)
Lemma next_player_differs (roster : list Player.Row) (t : Z) (ap ap' : Player.Row) :
  NoDup (map Player.id roster) ->
  (2 <= List.length roster)%nat ->
  0 <= t ->
  activePlayer roster t = Some ap ->
  activePlayer roster (t + 1) = Some ap' ->
  Player.id ap <> Player.id ap'.
Proof.
  intros Hnodup Hn Ht Hap Hap' Hid.
  rewrite activePlayer_nth in Hap, Hap' by lia.
  remember (Z.of_nat (List.length roster)) as n eqn:Hlen.
  assert (Hpos : 0 < n) by lia.
  pose proof (Z.mod_pos_bound t n Hpos) as Hb.
  pose proof (Z.mod_pos_bound (t + 1) n Hpos) as Hb'.
  assert (Hi : nth_error (map Player.id roster) (Z.to_nat (t mod n))
               = Some (Player.id ap)) by (rewrite nth_error_map, Hap; reflexivity).
  assert (Hj : nth_error (map Player.id roster) (Z.to_nat ((t + 1) mod n))
               = Some (Player.id ap')) by (rewrite nth_error_map, Hap'; reflexivity).
  rewrite <- Hid in Hj.
  assert (Heq : Z.to_nat (t mod n) = Z.to_nat ((t + 1) mod n)).
  { apply (proj1 (NoDup_nth_error (map Player.id roster)) Hnodup).
    - rewrite List.length_map. lia.
    - congruence. }
  assert (Hsame : t mod n = (t + 1) mod n) by lia.
  rewrite <- Zplus_mod_idemp_l in Hsame.
  destruct (Z.eq_dec (t mod n + 1) n) as [E | E].
  - rewrite E, Z_mod_same_full in Hsame. lia.
  - rewrite (Z.mod_small (t mod n + 1) n) in Hsame by lia. lia.
Qed.

(** X7. One after the other, the same player cannot move twice in a row.
    In a game of two or more players with distinct ids, once a move has
    advanced the turn, a further [handleMove] for the same player, from any
    tab whatever it holds, is turned down as "not your turn": nothing is
    written and the selection is not restored. *)
Theorem no_second_move_in_a_row (c c2 : Client) (s : Store) (toPosition toPosition2 : Z)
  (faults faults2 : nat -> bool) (cp cp2 : Player.Row) (tt tt2 : transport_type) :
  NoDup (map Player.id (st_players s)) ->
  (2 <= List.length (st_players s))%nat ->
  0 <= Game.current_turn (st_game s) ->
  Validated c s faults cp tt ->
  faults 4%nat = false ->
  currentPlayer c2 = Some cp2 ->
  selectedTransport c2 = Some tt2 ->
  game c2 <> None ->
  Player.id cp2 = Player.id cp ->
  faults2 0%nat = false ->
  faults2 1%nat = false ->
  let s1 := finalStore (run (handleMove c toPosition) s faults) in
  let r2 := run (handleMove c2 toPosition2) s1 faults2 in
  finalStore r2 = s1
  /\ writes (requests r2) = []
  /\ toasts (result r2) = toasts c2 ++ [NotYourTurn]
  /\ selectedTransport (result r2) = None.
Proof.
  intros Hnodup Hn Ht V F4 Hcp2 Htt2 Hg2 Hid F0 F1 s1 r2.
  destruct (handleMove_validated c s toPosition faults cp tt V) as (Hstore & _).
  fold s1 in Hstore.
  assert (Hids : map Player.id (st_players s1) = map Player.id (st_players s))
    by (rewrite Hstore; apply committed_ids).
  assert (Hturn : Game.current_turn (st_game s1) = Game.current_turn (st_game s) + 1)
    by (rewrite Hstore, committed_current_turn, F4; reflexivity).
  destruct V as [(_ & _ & _ & _ & _ & ap & Hact & Hcpid) _].
  assert (Hlen : List.length (st_players s1) = List.length (st_players s)).
  { rewrite <- (List.length_map Player.id (st_players s1)), Hids.
    apply List.length_map. }
  destruct (nth_error (st_players s1)
              (Z.to_nat ((Game.current_turn (st_game s) + 1)
                         mod Z.of_nat (List.length (st_players s1)))))
    as [ap1 |] eqn:Hnth.
  - assert (Hact1 : activePlayer (st_players s1) (Game.current_turn (st_game s1)) = Some ap1)
      by (rewrite Hturn, activePlayer_nth by lia; exact Hnth).
    pose proof (activePlayer_ids _ _ (Game.current_turn (st_game s) + 1) Hids) as Hsame.
    rewrite <- Hturn, Hact1 in Hsame. rewrite Hturn in Hsame.
    destruct (activePlayer (st_players s) (Game.current_turn (st_game s) + 1))
      as [ap' |] eqn:Hact'; [| discriminate].
    simpl in Hsame. injection Hsame as Hsame.
    pose proof (next_player_differs _ _ _ _ Hnodup Hn Ht Hact Hact') as Hdiff.
    assert (Hwrong : Player.id cp2 <> Player.id ap1) by congruence.
    unfold r2.
    rewrite (handleMove_wrong_turn c2 s1 toPosition2 faults2 cp2 ap1 tt2
               Hcp2 Htt2 Hg2 F0 F1 Hact1 Hwrong).
    repeat split.
  - apply nth_error_None in Hnth.
    pose proof (Z.mod_pos_bound (Game.current_turn (st_game s) + 1)
                  (Z.of_nat (List.length (st_players s1))) ltac:(lia)) as Hb.
    lia.
Qed.

Lemma no_second_move_in_a_row_witness :
  NoDup (map Player.id (st_players Scenario.store0))
  /\ Validated Scenario.tabA Scenario.store0 noFaults Scenario.playerA taxi
  /\ toasts (result (run (handleMove Scenario.staleTabA 20)
                         (finalStore (run (handleMove Scenario.tabA 15)
                                          Scenario.store0 noFaults))
                         noFaults))
     = toasts Scenario.staleTabA ++ [NotYourTurn].
Proof.
  assert (Hnodup : NoDup (map Player.id (st_players Scenario.store0))).
  { repeat constructor; simpl; intuition discriminate. }
  assert (V : Validated Scenario.tabA Scenario.store0 noFaults Scenario.playerA taxi)
    by validate.
  assert (Hg : game Scenario.staleTabA <> None) by (vm_compute; discriminate).
  split; [exact Hnodup |]. split; [exact V |].
  exact (proj1 (proj2 (proj2
           (no_second_move_in_a_row Scenario.tabA Scenario.staleTabA Scenario.store0
              15 20 noFaults noFaults Scenario.playerA Scenario.playerA taxi taxi
              Hnodup ltac:(simpl; lia) ltac:(simpl; lia) V eq_refl
              eq_refl eq_refl Hg eq_refl eq_refl eq_refl)))).
Defined.

(** ** What [handleMove] does not look at *)

(** X8. [handleMove] never looks at the status of the game nor at the moves
    the tab offers: with the stored status replaced by any other (waiting,
    in progress, finished) and the offered moves by any list, it shows the
    same toast, sends the same writes for the same station, and leaves the
    same store, status apart. *)
Theorem handleMove_ignores_status (c : Client) (s : Store) (toPosition : Z)
  (faults : nat -> bool) (st : game_status) (offered : list Z) :
  let r := run (handleMove c toPosition) s faults in
  let r' := run (handleMove (setAvailableMoves offered c) toPosition)
                (updateGame (SetStatus st) s) faults in
  toasts (result r') = toasts (result r)
  /\ selectedTransport (result r') = selectedTransport (result r)
  /\ writes (requests r') = writes (requests r)
  /\ finalStore r' = updateGame (SetStatus st) (finalStore r).
Proof.
  cbn zeta.
  unfold handleMove, fetchGameData, spread, updateGame, insertMove, updatePlayer,
    newMove, applyGameUpdate, Game.set_status, Game.set_current_turn.
  cbn.
  destruct (currentPlayer c) as [cp |]; [| cbn; repeat split].
  destruct (selectedTransport c) as [tt |]; [| cbn; repeat split].
  destruct (game c) as [g0 |]; [| cbn; repeat split].
  cbn.
  destruct (faults 0%nat); cbn; [repeat split |].
  destruct (faults 1%nat); cbn; [repeat split |].
  destruct (activePlayer (st_players s) (Game.current_turn (st_game s))) as [ap |];
    cbn; [| repeat split].
  destruct (String.eqb (Player.id cp) (Player.id ap)); cbn; [| repeat split].
  destruct (ticketCount cp tt <=? 0); cbn; [repeat split |].
  destruct (faults 2%nat), (faults 3%nat), (faults 4%nat); cbn;
    try (repeat split; fail).
  all: destruct (faults 5%nat), (faults 6%nat), (faults 7%nat); cbn; repeat split.
Qed.

(** ** Moves in sequence *)



(** ** A handler that resumes late *)

Lemma afterSelects_validated (c : Client) (s : Store) (toPosition : Z)
  (cp : Player.Row) (tt : transport_type) :
  Validated c s noFaults cp tt ->
  afterSelects c toPosition s =
    (_ <- await InsertMove (newMove c cp toPosition tt (st_game s)) ;;
     _ <- await UpdatePlayer (Player.id cp)
            (updates toPosition tt (ticketCount cp tt)) ;;
     updateError <- await UpdateGame
            (SetCurrentTurn (Game.current_turn (st_game s) + 1)) ;;
     match updateError with
     | Some e =>
         Ret (setSelectedTransport (Some tt)
                (toast (FailedToMakeMove (ThrownUpdateError e))
                   (setAvailableMoves [] (setSelectedTransport None c))))
     | None =>
         fetchGameData
           (toast MoveCompleted (setAvailableMoves [] (setSelectedTransport None c)))
     end).
Proof.
  intros [(Hcp & Htt & Hgame & _ & _ & ap & Hact & Hid) Hpos].
  unfold afterSelects, handleMove, spread. rewrite Hcp, Htt.
  destruct (game c) as [g0 |]; [| congruence].
  cbn. rewrite Hact, Hid, String.eqb_refl. cbn.
  destruct (Z.leb_spec (ticketCount cp tt) 0) as [Hle | _]; [lia |].
  rewrite setAvailableMoves_gameId. reflexivity.
Qed.

(** X10. A handler that has validated its move and makes its writes only
    later writes what it worked out then: whatever the store holds by the
    time it resumes, an accepted game update sets the turn counter to the
    counter it fetched plus 1 (back, if the game has moved on further), the
    inserted row carries the fetched counter as its turn number, the mover's
    row gets the position asked for, and the handler reports a completed
    move. *)
Theorem late_commit_overwrites (c : Client) (s later : Store) (toPosition : Z)
  (faults : nat -> bool) (cp : Player.Row) (tt : transport_type) :
  Validated c s noFaults cp tt ->
  faults 0%nat = false -> faults 1%nat = false -> faults 2%nat = false ->
  let r := run (afterSelects c toPosition s) later faults in
  Game.current_turn (st_game (finalStore r)) = Game.current_turn (st_game s) + 1
  /\ st_moves (finalStore r) = st_moves later ++ [newMove c cp toPosition tt (st_game s)]
  /\ st_players (finalStore r) =
       updatePlayers (Player.id cp) (updates toPosition tt (ticketCount cp tt))
         (st_players later)
  /\ toasts (result r) = toasts c ++ [MoveCompleted]
  /\ (Game.current_turn (st_game s) + 1 < Game.current_turn (st_game later) ->
      Game.current_turn (st_game (finalStore r)) < Game.current_turn (st_game later)).
Proof.
  intros V F0 F1 F2 r. unfold r.
  rewrite (afterSelects_validated c s toPosition cp tt V).
  unfold fetchGameData. cbn. rewrite F0. cbn. rewrite F1. cbn. rewrite F2. cbn.
  destruct (faults 3%nat), (faults 4%nat), (faults 5%nat); cbn;
    (split; [reflexivity |]); (split; [reflexivity |]); (split; [reflexivity |]);
    (split; [reflexivity |]); intros H; exact H.
Qed.

Lemma late_commit_overwrites_witness :
  Validated Scenario.tabA Scenario.store0 noFaults Scenario.playerA taxi
  /\ Game.current_turn (st_game (finalStore Scenario.secondMove)) = 2
  /\ Game.current_turn
       (st_game (finalStore (run (afterSelects Scenario.tabA 11 Scenario.store0)
                                 (finalStore Scenario.secondMove) noFaults)))
     = Game.current_turn (st_game Scenario.store0) + 1.
Proof.
  assert (V : Validated Scenario.tabA Scenario.store0 noFaults Scenario.playerA taxi)
    by validate.
  split; [exact V |]. split; [vm_compute; reflexivity |].
  exact (proj1 (late_commit_overwrites Scenario.tabA Scenario.store0
                  (finalStore Scenario.secondMove) 11 noFaults Scenario.playerA taxi
                  V eq_refl eq_refl eq_refl)).
Defined.

(** ** [startGame] *)

(** X11. [startGame] does not look at the answer of its update, nor at the
    status the store holds: with two or more players in the tab's roster it
    shows "Game started!" whether the update went through or failed, and an
    accepted update sets the status to in progress from whatever it was,
    leaving the rest of the store alone. *)
Theorem startGame_reports_success_unchecked (c : Client) (s : Store)
  (faults : nat -> bool) :
  (2 <= List.length (players c))%nat ->
  let r := run (startGame c) s faults in
  toasts (result r) = toasts c ++ [GameStarted]
  /\ requests r = [EvUpdateGame (SetStatus in_progress) (writeError (faults 0%nat))]
  /\ finalStore r = (if faults 0%nat then s else updateGame (SetStatus in_progress) s)
  /\ st_players (finalStore r) = st_players s
  /\ st_moves (finalStore r) = st_moves s
  /\ Game.current_turn (st_game (finalStore r)) = Game.current_turn (st_game s).
Proof.
  intros Hn r. unfold r, startGame.
  destruct (Z.ltb_spec (Z.of_nat (List.length (players c))) 2) as [Hfew | _]; [lia |].
  cbn. unfold writeError. destruct (faults 0%nat); cbn; repeat split.
Qed.

Lemma startGame_reports_success_unchecked_witness :
  (2 <= List.length (players (Scenario.tab "uA" Scenario.lobby2)))%nat
  /\ toasts (result (run (startGame (Scenario.tab "uA" Scenario.lobby2))
                         Scenario.lobby2 (fun _ => true)))
     = toasts (Scenario.tab "uA" Scenario.lobby2) ++ [GameStarted]
  /\ finalStore (run (startGame (Scenario.tab "uA" Scenario.lobby2))
                     Scenario.lobby2 (fun _ => true))
     = Scenario.lobby2.
Proof.
  assert (Hn : (2 <= List.length (players (Scenario.tab "uA" Scenario.lobby2)))%nat)
    by (vm_compute; lia).
  destruct (startGame_reports_success_unchecked (Scenario.tab "uA" Scenario.lobby2)
              Scenario.lobby2 (fun _ => true) Hn) as (Ht & _ & Hs & _).
  split; [exact Hn |]. split; [exact Ht | exact Hs].
Defined.

(** ** [playerPositions] *)

Lemma lookup_assign {V : Type} (obj : list (string * V)) (key : string) (v : V)
  (k : string) :
  lookup (assign obj key v) k = if String.eqb key k then Some v else lookup obj k.
Proof.
  induction obj as [| [k0 w] rest IH]; simpl.
  - reflexivity.
  - destruct (String.eqb_spec k0 key) as [-> | Hne]; simpl.
    + destruct (String.eqb key k); reflexivity.
    + rewrite IH.
      destruct (String.eqb_spec k0 k) as [-> | _]; [| reflexivity].
      destruct (String.eqb_spec key k) as [-> | _]; [contradiction | reflexivity].
Qed.

Lemma find_last {A : Type} (f : A -> bool) (l : list A) (a : A) :
  find f (l ++ [a]) =
    match find f l with
    | Some x => Some x
    | None => if f a then Some a else None
    end.
Proof.
  induction l as [| b l IH]; simpl; [reflexivity |].
  destruct (f b); [reflexivity | exact IH].
Qed.

Lemma playerPositions_from (players : list Player.Row)
  (acc : list (string * (Z * player_role))) (k : string) :
  lookup
    (fold_left
       (fun acc p => assign acc (Player.id p) (Player.current_position p, Player.role p))
       players acc) k
  = match find (fun p => String.eqb (Player.id p) k) (rev players) with
    | Some p => Some (Player.current_position p, Player.role p)
    | None => lookup acc k
    end.
Proof.
  revert acc. induction players as [| a players IH]; intros acc; simpl.
  - reflexivity.
  - rewrite IH, find_last, lookup_assign.
    destruct (find (fun p => String.eqb (Player.id p) k) (rev players));
      [reflexivity |].
    destruct (String.eqb (Player.id a) k); reflexivity.
Qed.

(** X12. [playerPositions] holds, under the id of every player of the
    roster and under no other key, the position and role of that player;
    when an id occurs twice the later row is the one kept, and in a roster
    without a repeated id every player is found under its own id. *)
Theorem playerPositions_lookup (players : list Player.Row) (k : string) :
  lookup (playerPositions players) k
  = option_map (fun p => (Player.current_position p, Player.role p))
      (find (fun p => String.eqb (Player.id p) k) (rev players))
  /\ (lookup (playerPositions players) k = None <-> ~ In k (map Player.id players))
  /\ (NoDup (map Player.id players) ->
      forall p, In p players ->
        lookup (playerPositions players) (Player.id p)
        = Some (Player.current_position p, Player.role p)).
Proof.
  assert (Hlookup : lookup (playerPositions players) k
            = option_map (fun p => (Player.current_position p, Player.role p))
                (find (fun p => String.eqb (Player.id p) k) (rev players))).
  { unfold playerPositions. rewrite playerPositions_from.
    destruct (find (fun p => String.eqb (Player.id p) k) (rev players)); reflexivity. }
  split; [exact Hlookup |]. split.
  - rewrite Hlookup. split.
    + intros Hnone Hin. apply in_map_iff in Hin. destruct Hin as (p & Hid & Hin).
      destruct (find (fun p => String.eqb (Player.id p) k) (rev players)) eqn:Hfind;
        [discriminate |].
      apply in_rev in Hin. apply (find_none _ _ Hfind p) in Hin.
      apply String.eqb_neq in Hin. contradiction.
    + intros Hnot.
      destruct (find (fun p => String.eqb (Player.id p) k) (rev players)) eqn:Hfind;
        [| reflexivity].
      apply find_some in Hfind. destruct Hfind as [Hin Hid].
      apply String.eqb_eq in Hid. exfalso. apply Hnot.
      apply in_map_iff. exists r. split; [exact Hid | apply in_rev; exact Hin].
  - intros Hnodup p Hin. unfold playerPositions. rewrite playerPositions_from.
    destruct (find (fun q => String.eqb (Player.id q) (Player.id p)) (rev players))
      as [q |] eqn:Hfind.
    + apply find_some in Hfind. destruct Hfind as [Hq Hid].
      apply String.eqb_eq in Hid. apply in_rev in Hq.
      assert (q = p); [| subst q; reflexivity].
      apply In_nth_error in Hq, Hin.
      destruct Hq as (i & Hi). destruct Hin as (j & Hj).
      assert (i = j).
      { apply (proj1 (NoDup_nth_error (map Player.id players)) Hnodup).
        - rewrite List.length_map. apply nth_error_Some. congruence.
        - rewrite !nth_error_map, Hi, Hj. simpl. congruence. }
      subst j. congruence.
    + apply in_rev in Hin. apply (find_none _ _ Hfind p) in Hin.
      rewrite String.eqb_refl in Hin. discriminate.
Qed.

Lemma playerPositions_lookup_witness :
  NoDup (map Player.id (st_players Scenario.store4))
  /\ lookup (playerPositions (st_players Scenario.store4)) (Player.id Scenario.playerB)
     = Some (Player.current_position Scenario.playerB, Player.role Scenario.playerB).
Proof.
  assert (Hnodup : NoDup (map Player.id (st_players Scenario.store4))).
  { repeat constructor; simpl; intuition discriminate. }
  split; [exact Hnodup |].
  exact (proj2 (proj2 (playerPositions_lookup (st_players Scenario.store4)
                         (Player.id Scenario.playerB)))
           Hnodup Scenario.playerB ltac:(simpl; tauto)).
Defined.

(** ** The render *)

Lemma insertSorted_length {A : Type} (compare : A -> A -> Z) (a : A) (arr : list A) :
  List.length (insertSorted compare a arr) = S (List.length arr).
Proof.
  induction arr as [| b rest IH]; simpl; [reflexivity |].
  destruct (compare a b <=? 0); simpl; [reflexivity | rewrite IH; reflexivity].
Qed.

Lemma sort_length {A : Type} (compare : A -> A -> Z) (arr : list A) :
  List.length (sort compare arr) = List.length arr.
Proof.
  induction arr as [| a arr IH]; [reflexivity |].
  unfold sort in *. simpl. rewrite insertSorted_length, IH. reflexivity.
Qed.

Lemma renderActivePlayer_some (localeCompare : string -> string -> Z)
  (game : Game.Row) (players : list Player.Row) :
  players <> [] -> 0 <= Game.current_turn game ->
  exists ap, renderActivePlayer localeCompare game players = Some ap.
Proof.
  intros Hne Ht. unfold renderActivePlayer.
  assert (Hlen : (1 <= List.length (sortedPlayers localeCompare players))%nat).
  { unfold sortedPlayers, spread. rewrite sort_length.
    destruct players; [contradiction | simpl; lia]. }
  rewrite activePlayer_nth by assumption.
  destruct (nth_error (sortedPlayers localeCompare players)
              (Z.to_nat (Game.current_turn game
                         mod Z.of_nat (List.length (sortedPlayers localeCompare players)))))
    as [ap |] eqn:Hnth; [exists ap; reflexivity |].
  apply nth_error_None in Hnth.
  pose proof (Z.mod_pos_bound (Game.current_turn game)
                (Z.of_nat (List.length (sortedPlayers localeCompare players)))
                ltac:(lia)) as Hb.
  lia.
Qed.

(** X13. The component renders without throwing whenever its cells are in
    step and the turn counter of the game it holds is not negative: it shows
    "Loading..." exactly while the game or the player is missing, and
    otherwise the board, with one row per player of the roster and the turn
    counter of the game. *)
Theorem render_does_not_throw (localeCompare : string -> string -> Z) (c : Client) :
  cellsAgree c ->
  (forall g, game c = Some g -> 0 <= Game.current_turn g) ->
  (render localeCompare c = Loading <-> game c = None \/ currentPlayer c = None)
  /\ (forall g cp, game c = Some g -> currentPlayer c = Some cp ->
        exists v,
          render localeCompare c = Board v
          /\ view_turn v = Game.current_turn g
          /\ List.length (view_players v) = List.length (players c)
          /\ view_currentPosition v = Player.current_position cp
          /\ view_startGame v = startGameButton c).
Proof.
  intros Hagree Hturn.
  assert (Hboard : forall g cp, game c = Some g -> currentPlayer c = Some cp ->
            exists v,
              render localeCompare c = Board v
              /\ view_turn v = Game.current_turn g
              /\ List.length (view_players v) = List.length (players c)
              /\ view_currentPosition v = Player.current_position cp
              /\ view_startGame v = startGameButton c).
  { intros g cp Hg Hcp.
    destruct (cellsAgree_find c cp Hagree Hcp) as [Hin _].
    assert (Hne : players c <> []) by (intros E; rewrite E in Hin; destruct Hin).
    destruct (renderActivePlayer_some localeCompare g (players c) Hne (Hturn g Hg))
      as (ap & Hap).
    unfold render, isMyTurn. rewrite Hg, Hcp, Hap.
    destruct (game_status_eqb (Game.status g) in_progress),
             (game_status_eqb (Game.status g) waiting); cbn;
      eexists; (split; [reflexivity |]); cbn; rewrite ?List.length_map;
      repeat split. }
  split; [| exact Hboard].
  split.
  - intros Hloading.
    destruct (game c) as [g |] eqn:Hg; [| left; reflexivity].
    destruct (currentPlayer c) as [cp |] eqn:Hcp; [| right; reflexivity].
    destruct (Hboard g cp eq_refl eq_refl) as (v & Hv & _).
    rewrite Hv in Hloading. discriminate.
  - intros [Hg | Hcp]; unfold render.
    + rewrite Hg. reflexivity.
    + rewrite Hcp. destruct (game c); reflexivity.
Qed.

Lemma render_does_not_throw_witness :
  cellsAgree Scenario.tabA
  /\ exists v,
       render Scenario.codeUnitCompare Scenario.tabA = Board v
       /\ view_turn v = Game.current_turn (st_game Scenario.store0)
       /\ List.length (view_players v) = List.length (players Scenario.tabA)
       /\ view_currentPosition v = Player.current_position Scenario.playerA
       /\ view_startGame v = startGameButton Scenario.tabA.
Proof.
  assert (Hagree : cellsAgree Scenario.tabA) by reflexivity.
  assert (Hturn : forall g, game Scenario.tabA = Some g -> 0 <= Game.current_turn g).
  { intros g Hg. vm_compute in Hg. injection Hg as <-. simpl. lia. }
  split; [exact Hagree |].
  exact (proj2 (render_does_not_throw Scenario.codeUnitCompare Scenario.tabA Hagree Hturn)
           (st_game Scenario.store0) Scenario.playerA eq_refl eq_refl).
Defined.

Lemma game_status_eqb_eq (a b : game_status) : game_status_eqb a b = true -> a = b.
Proof. destruct a, b; simpl; congruence. Qed.

Lemma player_role_eqb_eq (a b : player_role) : player_role_eqb a b = true -> a = b.
Proof. destruct a, b; simpl; congruence. Qed.

Lemma canSelect_inv (localeCompare : string -> string -> Z) (c : Client)
  (t : transport_type) :
  canSelect localeCompare c t = true ->
  exists g cp ap,
    game c = Some g
    /\ currentPlayer c = Some cp
    /\ Game.status g = in_progress
    /\ renderActivePlayer localeCompare g (players c) = Some ap
    /\ Player.id cp = Player.id ap
    /\ ticketCount cp t <> 0
    /\ (t = black -> Player.role cp = mr_x).
Proof.
  unfold canSelect, render, isMyTurn.
  destruct (game c) as [g |]; [| discriminate].
  destruct (currentPlayer c) as [cp |]; [| discriminate].
  destruct (renderActivePlayer localeCompare g (players c)) as [ap |] eqn:Hap.
  - destruct (game_status_eqb (Game.status g) in_progress) eqn:Hst.
    + apply game_status_eqb_eq in Hst. rewrite Hst. cbn.
      intros H. exists g, cp, ap.
      assert (Hbutton : negb (negb (String.eqb (Player.id cp) (Player.id ap))
                              || (ticketCount cp t =? 0)) = true
                        /\ (t = black -> Player.role cp = mr_x)).
      { destruct t; cbn in H; try (split; [exact H | discriminate]).
        destruct (player_role_eqb (Player.role cp) mr_x) eqn:Hrole;
          [| discriminate].
        apply player_role_eqb_eq in Hrole. split; [exact H | intros _; exact Hrole]. }
      destruct Hbutton as [Hb Hblack].
      apply negb_true_iff, orb_false_iff in Hb. destruct Hb as [Hmine Hcount].
      apply negb_false_iff, String.eqb_eq in Hmine. apply Z.eqb_neq in Hcount.
      repeat split; assumption.
    + intros H. exfalso.
      destruct (game_status_eqb (Game.status g) waiting); cbn in H;
        destruct t; cbn in H; try discriminate;
        destruct (player_role_eqb (Player.role cp) mr_x); discriminate.
  - intros H. exfalso.
    destruct (game_status_eqb (Game.status g) in_progress); [discriminate |].
    destruct (game_status_eqb (Game.status g) waiting); cbn in H; [| discriminate].
    destruct (players c); cbn in H; [| discriminate].
    destruct t; cbn in H; try discriminate.
    destruct (player_role_eqb (Player.role cp) mr_x); discriminate.
Qed.

(** X14. A ticket button can be clicked only on the user's own turn: it is
    on the screen and enabled only when the game the tab holds is in
    progress, the player of the tab has the id of the active player of the
    sorted roster, and the player's count of that ticket is not 0; the black
    button only when the player is Mr. X. *)
Theorem ticket_button_needs_turn_and_ticket (localeCompare : string -> string -> Z)
  (c : Client) (t : transport_type) :
  canSelect localeCompare c t = true ->
  exists g cp,
    game c = Some g
    /\ currentPlayer c = Some cp
    /\ Game.status g = in_progress
    /\ isMyTurn localeCompare g (players c) cp = Some true
    /\ ticketCount cp t <> 0
    /\ (t = black -> Player.role cp = mr_x).
Proof.
  intros Hcan.
  destruct (canSelect_inv localeCompare c t Hcan)
    as (g & cp & ap & Hg & Hcp & Hst & Hap & Hid & Hcount & Hblack).
  exists g, cp. repeat split; try assumption.
  unfold isMyTurn. rewrite Hst, Hap, Hid, String.eqb_refl. reflexivity.
Qed.

Lemma ticket_button_needs_turn_and_ticket_witness :
  canSelect Scenario.codeUnitCompare (Scenario.tab "uA" Scenario.store0) black = true
  /\ exists g cp,
       game (Scenario.tab "uA" Scenario.store0) = Some g
       /\ currentPlayer (Scenario.tab "uA" Scenario.store0) = Some cp
       /\ Game.status g = in_progress
       /\ isMyTurn Scenario.codeUnitCompare g
            (players (Scenario.tab "uA" Scenario.store0)) cp = Some true
       /\ ticketCount cp black <> 0
       /\ (black = black -> Player.role cp = mr_x).
Proof.
  assert (Hcan : canSelect Scenario.codeUnitCompare (Scenario.tab "uA" Scenario.store0)
                   black = true) by (vm_compute; reflexivity).
  split; [exact Hcan |].
  exact (ticket_button_needs_turn_and_ticket Scenario.codeUnitCompare
           (Scenario.tab "uA" Scenario.store0) black Hcan).
Defined.

(** X15. On a tab that shows what the store holds, with the roster in the
    order of the browser's collation and no negative ticket count, an
    enabled ticket button leads to a move: choosing that transport and then
    any station, every request answered, passes the checks of [handleMove];
    the move is in the log, the turn has advanced by 1 and the handler
    reports it as completed. *)
Theorem enabled_button_leads_to_a_move (localeCompare : string -> string -> Z)
  (getAllAvailableMoves : Z -> AvailableMoves.t) (c : Client) (s : Store)
  (t : transport_type) (toPosition : Z) (cp : Player.Row) :
  game c = Some (st_game s) ->
  players c = st_players s ->
  currentPlayer c = Some cp ->
  Sorted (inOrder (fun a b => localeCompare (Player.created_at a) (Player.created_at b)))
         (st_players s) ->
  0 <= ticketCount cp t ->
  canSelect localeCompare c t = true ->
  let c' := handleTransportSelect getAllAvailableMoves c t in
  let r := run (handleMove c' toPosition) s noFaults in
  toasts (result r) = toasts c ++ [MoveCompleted]
  /\ st_moves (finalStore r) = st_moves s ++ [newMove c cp toPosition t (st_game s)]
  /\ Game.current_turn (st_game (finalStore r)) = Game.current_turn (st_game s) + 1
  /\ st_players (finalStore r) =
       updatePlayers (Player.id cp) (updates toPosition t (ticketCount cp t))
         (st_players s).
Proof.
  intros Hgame Hplayers Hcp Hsorted Hnonneg Hcan c' r.
  destruct (canSelect_inv localeCompare c t Hcan)
    as (g & cp0 & ap & Hg & Hcp0 & Hst & Hap & Hid & Hcount & _).
  assert (cp0 = cp) by congruence. subst cp0.
  assert (g = st_game s) by congruence. subst g.
  unfold renderActivePlayer, sortedPlayers, spread in Hap.
  rewrite Hplayers, (sort_sorted_id _ _ Hsorted) in Hap.
  assert (V : Validated c' s noFaults cp t).
  { unfold c', handleTransportSelect. rewrite Hcp.
    unfold Validated, ReachesTicketCheck. cbn.
    repeat split; try assumption; try reflexivity.
    - rewrite Hgame. discriminate.
    - exists ap. split; assumption.
    - lia. }
  destruct (handleMove_validated c' s toPosition noFaults cp t V)
    as (Hstore & _ & Htoast & _).
  fold r in Hstore, Htoast.
  rewrite Hstore, Htoast, committed_moves, committed_current_turn, committed_players.
  unfold noFaults, c', handleTransportSelect. rewrite Hcp. cbn.
  repeat split.
Qed.

Lemma enabled_button_leads_to_a_move_witness :
  Sorted (inOrder (fun a b => Scenario.codeUnitCompare (Player.created_at a)
                                (Player.created_at b)))
         (st_players Scenario.store0)
  /\ canSelect Scenario.codeUnitCompare (Scenario.tab "uA" Scenario.store0) taxi = true
  /\ toasts (result (run (handleMove
                            (handleTransportSelect Scenario.getAllAvailableMoves
                               (Scenario.tab "uA" Scenario.store0) taxi) 15)
                         Scenario.store0 noFaults))
     = toasts (Scenario.tab "uA" Scenario.store0) ++ [MoveCompleted].
Proof.
  assert (Hsorted :
    Sorted (inOrder (fun a b => Scenario.codeUnitCompare (Player.created_at a)
                                  (Player.created_at b)))
           (st_players Scenario.store0)).
  { repeat constructor. unfold inOrder. vm_compute. discriminate. }
  assert (Hcan : canSelect Scenario.codeUnitCompare (Scenario.tab "uA" Scenario.store0)
                   taxi = true) by (vm_compute; reflexivity).
  split; [exact Hsorted |]. split; [exact Hcan |].
  exact (proj1 (enabled_button_leads_to_a_move Scenario.codeUnitCompare
                  Scenario.getAllAvailableMoves (Scenario.tab "uA" Scenario.store0)
                  Scenario.store0 taxi 15 Scenario.playerA
                  eq_refl eq_refl eq_refl Hsorted ltac:(vm_compute; discriminate) Hcan)).
Defined.

(** ** The reveal flag and the board *)

(** X16. The [revealed] flag of a move of Mr. X and what the board shows
    afterwards are decided at different counters.  When a move of Mr. X
    fetched at counter t is committed, its row is flagged by whether t is a
    reveal turn, while the board of a detective holding the new game row
    shows Mr. X by whether t + 1 is one.  On every t that leaves remainder 2
    when divided by 3 the two differ: the row is not flagged, the board
    shows him. *)
Theorem reveal_flag_and_board_differ (c : Client) (s : Store) (toPosition : Z)
  (faults : nat -> bool) (cp detectiveRow : Player.Row) (tt : transport_type) :
  Validated c s faults cp tt ->
  Player.role cp = mr_x ->
  Player.role detectiveRow = detective ->
  faults 2%nat = false ->
  faults 4%nat = false ->
  let r := run (handleMove c toPosition) s faults in
  let t := Game.current_turn (st_game s) in
  st_moves (finalStore r) = st_moves s ++ [newMove c cp toPosition tt (st_game s)]
  /\ Move.revealed (newMove c cp toPosition tt (st_game s)) = isRevealTurn t
  /\ showMrX (st_game (finalStore r)) detectiveRow = isRevealTurn (t + 1)
  /\ (t mod 3 = 2 ->
      Move.revealed (newMove c cp toPosition tt (st_game s)) = false
      /\ showMrX (st_game (finalStore r)) detectiveRow = true).
Proof.
  intros V Hrole Hdet F2 F4 r t.
  destruct (handleMove_validated c s toPosition faults cp tt V) as (Hstore & _).
  fold r in Hstore.
  assert (Hmoves : st_moves (finalStore r)
                   = st_moves s ++ [newMove c cp toPosition tt (st_game s)])
    by (rewrite Hstore, committed_moves, F2; reflexivity).
  assert (Hflag : Move.revealed (newMove c cp toPosition tt (st_game s)) = isRevealTurn t)
    by (unfold newMove; simpl; rewrite Hrole; reflexivity).
  assert (Hboard : showMrX (st_game (finalStore r)) detectiveRow = isRevealTurn (t + 1)).
  { unfold showMrX, isMrXRevealTurn.
    rewrite Hstore, committed_current_turn, F4, Hdet. reflexivity. }
  split; [exact Hmoves |]. split; [exact Hflag |]. split; [exact Hboard |].
  intros Hmod. rewrite Hflag, Hboard. split.
  - destruct (isRevealTurn t) eqn:E; [| reflexivity].
    apply isRevealTurn_spec in E. destruct E as [E | E]; [| lia].
    subst t. rewrite E in Hmod. discriminate Hmod.
  - apply isRevealTurn_spec. right.
    rewrite <- Zplus_mod_idemp_l, Hmod. reflexivity.
Qed.

Lemma reveal_flag_and_board_differ_witness :
  Validated Scenario.staleTabA (finalStore Scenario.secondMove) noFaults
    Scenario.playerA taxi
  /\ Game.current_turn (st_game (finalStore Scenario.secondMove)) mod 3 = 2
  /\ Move.revealed (newMove Scenario.staleTabA Scenario.playerA 20 taxi
                      (st_game (finalStore Scenario.secondMove))) = false
  /\ showMrX (st_game (finalStore (run (handleMove Scenario.staleTabA 20)
                                       (finalStore Scenario.secondMove) noFaults)))
       Scenario.playerB = true.
Proof.
  assert (V : Validated Scenario.staleTabA (finalStore Scenario.secondMove) noFaults
                Scenario.playerA taxi).
  { unfold Validated, ReachesTicketCheck. repeat split; try reflexivity.
    - vm_compute. discriminate.
    - eexists. split; vm_compute; reflexivity. }
  assert (Hmod : Game.current_turn (st_game (finalStore Scenario.secondMove)) mod 3 = 2)
    by (vm_compute; reflexivity).
  split; [exact V |]. split; [exact Hmod |].
  exact (proj2 (proj2 (proj2
           (reveal_flag_and_board_differ Scenario.staleTabA
              (finalStore Scenario.secondMove) 20 noFaults Scenario.playerA
              Scenario.playerB taxi V eq_refl eq_refl eq_refl eq_refl))) Hmod).
Defined.

(** ** Edges of [handleMove] *)

(** X17. With no player in the fetched roster there is no active player:
    [handleMove] catches the error of reading its id, shows the failure
    toast with the selection restored and writes nothing. *)
Theorem handleMove_on_empty_roster (c : Client) (s : Store) (toPosition : Z)
  (faults : nat -> bool) (cp : Player.Row) (tt : transport_type) :
  currentPlayer c = Some cp ->
  selectedTransport c = Some tt ->
  game c <> None ->
  faults 0%nat = false ->
  faults 1%nat = false ->
  st_players s = [] ->
  let r := run (handleMove c toPosition) s faults in
  finalStore r = s
  /\ writes (requests r) = []
  /\ toasts (result r) = toasts c ++ [FailedToMakeMove ThrownTypeError]
  /\ selectedTransport (result r) = Some tt
  /\ availableMoves (result r) = [].
Proof.
  intros Hcp Htt Hgame F0 F1 Hempty r. unfold r, handleMove, spread.
  rewrite Hcp, Htt. destruct (game c) as [g0 |]; [| congruence].
  cbn. rewrite F0. cbn. rewrite F1. cbn. rewrite Hempty, activePlayer_nil.
  repeat split.
Qed.

Lemma handleMove_on_empty_roster_witness :
  currentPlayer Scenario.tabA = Some Scenario.playerA
  /\ st_players (Build_Store (st_game Scenario.store0) [] []) = []
  /\ toasts (result (run (handleMove Scenario.tabA 15)
                         (Build_Store (st_game Scenario.store0) [] []) noFaults))
     = toasts Scenario.tabA ++ [FailedToMakeMove ThrownTypeError].
Proof.
  assert (Hcp : currentPlayer Scenario.tabA = Some Scenario.playerA) by reflexivity.
  assert (Hg : game Scenario.tabA <> None) by (vm_compute; discriminate).
  split; [exact Hcp |]. split; [reflexivity |].
  exact (proj1 (proj2 (proj2
           (handleMove_on_empty_roster Scenario.tabA
              (Build_Store (st_game Scenario.store0) [] []) 15 noFaults
              Scenario.playerA taxi Hcp eq_refl Hg eq_refl eq_refl eq_refl)))).
Defined.

(** X18. After a completed move whose refresh is answered in full the tab
    shows the store as the move left it: the game with the advanced counter,
    the roster with the mover on the new station, the log with the new row;
    the selection and the offered moves are cleared and the cells are in
    step whatever they were. *)
Theorem completed_move_refreshes_the_tab (c : Client) (s : Store) (toPosition : Z)
  (faults : nat -> bool) (cp : Player.Row) (tt : transport_type) :
  Validated c s faults cp tt ->
  faults 4%nat = false -> faults 5%nat = false ->
  faults 6%nat = false -> faults 7%nat = false ->
  let r := run (handleMove c toPosition) s faults in
  game (result r) = Some (st_game (finalStore r))
  /\ players (result r) = st_players (finalStore r)
  /\ moves (result r) = st_moves (finalStore r)
  /\ cellsAgree (result r)
  /\ Game.current_turn (st_game (finalStore r)) = Game.current_turn (st_game s) + 1
  /\ selectedTransport (result r) = None
  /\ availableMoves (result r) = [].
Proof.
  intros [(Hcp & Htt & Hgame & F0 & F1 & ap & Hact & Hid) Hpos] F4 F5 F6 F7 r.
  unfold r, handleMove, fetchGameData, spread, cellsAgree.
  destruct (game c) as [g0 |]; [| congruence].
  rewrite Hcp, Htt. cbn. rewrite F0. cbn. rewrite F1. cbn.
  rewrite Hact, Hid, String.eqb_refl. cbn.
  destruct (Z.leb_spec (ticketCount cp tt) 0) as [Hle | _]; [lia |].
  cbn. destruct (faults 2%nat), (faults 3%nat); cbn; rewrite F4; cbn;
    rewrite F5; cbn; rewrite F6; cbn; rewrite F7; cbn; repeat split.
Qed.

Lemma completed_move_refreshes_the_tab_witness :
  Validated Scenario.tabA Scenario.store0 noFaults Scenario.playerA taxi
  /\ game (result (run (handleMove Scenario.tabA 15) Scenario.store0 noFaults))
     = Some (st_game (finalStore (run (handleMove Scenario.tabA 15)
                                      Scenario.store0 noFaults))).
Proof.
  assert (V : Validated Scenario.tabA Scenario.store0 noFaults Scenario.playerA taxi)
    by validate.
  split; [exact V |].
  exact (proj1 (completed_move_refreshes_the_tab Scenario.tabA Scenario.store0 15
                  noFaults Scenario.playerA taxi V eq_refl eq_refl eq_refl eq_refl)).
Defined.
